(** * Amina Works: subtitle studio core, embedded from the TypeScript sources

    The development follows the sources file by file:
    - [JS]: the fragment of the JavaScript runtime the code relies on
      (IEEE doubles, [Math.max], [Math.round], [String.prototype.trim],
      [toLowerCase], [Array.prototype.slice], [atob]);
    - [Cues]: the [Subtitle] record and the offset nudge of [handleSync];
    - [App]: the editor state of the [App] component with its undo/redo
      history, reset, upload and Drive import;
    - [Translate]: the merge step of [translateSubtitlesWithGemini];
    - [Speech]: [splitTextIntoChunks], the WAV header and
      [generateDubbedAudio];
    - [Player]: [handleTimeUpdate] of the video player;
    - [Backend]: [login] of the local-storage backend;
    - [Samples]: the data of the end-to-end scenarios.

    The properties follow the definitions, component by component. *)

From Stdlib Require Import ZArith List Bool Ascii String Lia.
From Stdlib Require Import Floats Uint63 DecimalString DecimalNat Sorted Permutation.
From stdpp Require Import gmap strings.
Import ListNotations.

#[local] Open Scope string_scope.
#[local] Open Scope list_scope.
#[local] Open Scope Z_scope.
#[local] Set Warnings "-inexact-float".

(* ===================================================================== *)
(** ** The JavaScript runtime fragment *)
(* ===================================================================== *)

Module JS.

(** A JS [number] is an IEEE-754 double: Rocq's primitive [float]. *)
Definition number := float.
Bind Scope float_scope with number.

(** An integer-valued number, exact below 2^53 (loop counters, lengths). *)
Definition of_Z (z : Z) : number :=
  if z <? 0 then PrimFloat.opp (PrimFloat.of_uint63 (Uint63.of_Z (- z)))
  else PrimFloat.of_uint63 (Uint63.of_Z z).

Definition of_nat (n : nat) : number := of_Z (Z.of_nat n).

(** [Math.max(a, b)] (ECMAScript 21.3.2.24): NaN if either argument is NaN,
    otherwise the larger one, with +0 considered larger than -0. *)
Definition Math_max (a b : number) : number :=
  if PrimFloat.is_nan a || PrimFloat.is_nan b then PrimFloat.nan
  else if PrimFloat.ltb a b then b
  else if PrimFloat.ltb b a then a
  else match PrimFloat.classify a, PrimFloat.classify b with
       | NZero, PZero => b
       | _, _ => a
       end.

Definition Math_abs (a : number) : number := PrimFloat.abs a.

(** [Math.round(x)] (ECMAScript 21.3.2.28): the integral number closest to
    [x], ties towards +infinity; NaN, infinities, zeros and integral values
    are returned unchanged, and a result of zero keeps the sign of [x].
    The rounding is computed on the exact value [m * 2^e] of the double. *)
Definition Math_round (x : number) : number :=
  match Prim2SF x with
  | S754_finite s m e =>
      if 0 <=? e then x
      else
        let k := - e in
        let v := if s then Z.neg m else Z.pos m in
        let r := (2 * v + 2 ^ k) / 2 ^ (k + 1) in
        if r =? 0 then (if s then PrimFloat.neg_zero else PrimFloat.zero)
        else of_Z r
  | _ => x
  end.

(** [x > y] on numbers. *)
Definition gt (x y : number) : bool := PrimFloat.ltb y x.

(** *** Strings

    A JS string is a sequence of UTF-16 code units; the model keeps the
    code units below 256, one [ascii] each, so that [length] is [.length]. *)

Definition code (c : ascii) : Z := Z.of_N (N_of_ascii c).

(** White space of [String.prototype.trim] among the code units below 256:
    TAB, LF, VT, FF, CR, SPACE and NBSP. *)
Definition is_white_space (c : ascii) : bool :=
  let n := code c in
  ((9 <=? n) && (n <=? 13)) || (n =? 32) || (n =? 160).

Fixpoint trimStart (s : string) : string :=
  match s with
  | String c s' => if is_white_space c then trimStart s' else s
  | EmptyString => EmptyString
  end.

Fixpoint trimEnd (s : string) : string :=
  match s with
  | String c s' =>
      match trimEnd s' with
      | EmptyString => if is_white_space c then EmptyString else String c EmptyString
      | t => String c t
      end
  | EmptyString => EmptyString
  end.

Definition trim (s : string) : string := trimEnd (trimStart s).

(** [toLowerCase] on one code unit below 256: A-Z, and the Latin-1 capitals
    U+00C0..U+00DE except the multiplication sign U+00D7. *)
Definition lower_unit (c : ascii) : ascii :=
  let n := code c in
  if ((65 <=? n) && (n <=? 90))
     || ((192 <=? n) && (n <=? 222) && negb (n =? 215))
  then ascii_of_N (Z.to_N (n + 32)) else c.

Fixpoint toLowerCase (s : string) : string :=
  match s with
  | String c s' => String (lower_unit c) (toLowerCase s')
  | EmptyString => EmptyString
  end.

(** Truthiness of a string value: only the empty string is falsy. *)
Definition truthy (s : string) : bool := negb (String.eqb s "").

(** [a || b] on an optional string: [b] when [a] is undefined or empty. *)
Definition or_else (a : option string) (b : string) : string :=
  match a with
  | Some s => if truthy s then s else b
  | None => b
  end.

(** *** Arrays *)

(** [arr.slice(start, end)], negative indices counting from the end. *)
Definition slice {A} (arr : list A) (start end_ : Z) : list A :=
  let len := Z.of_nat (List.length arr) in
  let k := if start <? 0 then Z.max (len + start) 0 else Z.min start len in
  let final := if end_ <? 0 then Z.max (len + end_) 0 else Z.min end_ len in
  firstn (Z.to_nat (final - k)) (skipn (Z.to_nat k) arr).

(** [arr[i]]: [None] is [undefined] (index out of range). *)
Definition index {A} (arr : list A) (i : Z) : option A :=
  if i <? 0 then None else nth_error arr (Z.to_nat i).

(** *** Bytes and [atob] *)

(** The byte a typed array stores for an integer: its low eight bits. *)
Definition u8 (z : Z) : Byte.byte :=
  byte_of_ascii (ascii_of_N (Z.to_N (z mod 256))).

Definition byte_val (b : Byte.byte) : Z := code (ascii_of_byte b).

(** ASCII white space of the forgiving base64 decoder: TAB, LF, FF, CR,
    SPACE. *)
Definition is_ascii_white_space (c : ascii) : bool :=
  let n := code c in
  (n =? 9) || (n =? 10) || (n =? 12) || (n =? 13) || (n =? 32).

Definition base64_value (c : ascii) : option Z :=
  let n := code c in
  if (65 <=? n) && (n <=? 90) then Some (n - 65)
  else if (97 <=? n) && (n <=? 122) then Some (n - 71)
  else if (48 <=? n) && (n <=? 57) then Some (n + 4)
  else if n =? 43 then Some 62
  else if n =? 47 then Some 63
  else None.

Fixpoint sextets (l : list ascii) : option (list Z) :=
  match l with
  | [] => Some []
  | c :: l' =>
      match base64_value c, sextets l' with
      | Some v, Some vs => Some (v :: vs)
      | _, _ => None
      end
  end.

Definition chr (z : Z) : ascii := ascii_of_N (Z.to_N (z mod 256)).

(** Groups of four sextets give three bytes; a rest of two gives one byte
    (four bits dropped), a rest of three gives two (two bits dropped). *)
Fixpoint decode_sextets (l : list Z) : list ascii :=
  match l with
  | a :: b :: c :: d :: rest =>
      let n := ((a * 64 + b) * 64 + c) * 64 + d in
      chr (n / 65536) :: chr (n / 256) :: chr n :: decode_sextets rest
  | [a; b; c] =>
      let n := ((a * 64 + b) * 64 + c) / 4 in
      [chr (n / 256); chr n]
  | [a; b] => [chr ((a * 64 + b) / 16)]
  | _ => []
  end.

Definition strip_padding (l : list ascii) : list ascii :=
  if (Z.of_nat (List.length l) mod 4 =? 0) then
    match rev l with
    | "="%char :: "="%char :: r => rev r
    | "="%char :: r => rev r
    | _ => l
    end
  else l.

(** [atob(data)]: the binary string, or [None] for an
    [InvalidCharacterError]. *)
Definition atob (data : string) : option string :=
  let l := filter (fun c => negb (is_ascii_white_space c)) (list_ascii_of_string data) in
  let l := strip_padding l in
  if (Z.of_nat (List.length l) mod 4 =? 1) then None
  else match sextets l with
       | Some vs => Some (string_of_list_ascii (decode_sextets vs))
       | None => None
       end.

End JS.

(* ===================================================================== *)
(** ** Cues: the [Subtitle] record and the offset nudge *)
(* ===================================================================== *)

Module Cues.
Import JS.

(** The [Subtitle] interface as the sources use it ([types.ts]). *)
Record Subtitle := mkSubtitle {
  id : string;
  startTime : number;
  endTime : number;
  text : string;
  originalText : option string;
  speaker : option string;
  confidence : option number
}.

(** The [subtitles.map(...)] of [handleSync]: both bounds are moved by
    [offsetSec] and clamped at zero, every other field is spread unchanged. *)
Definition shiftAll (offsetSec : number) (subtitles : list Subtitle) : list Subtitle :=
  map (fun sub =>
         {| id := id sub;
            startTime := Math_max 0%float (startTime sub + offsetSec)%float;
            endTime := Math_max 0%float (endTime sub + offsetSec)%float;
            text := text sub;
            originalText := originalText sub;
            speaker := speaker sub;
            confidence := confidence sub |})
      subtitles.

(** The overlay filter of the workspace view:
    [currentTime >= s.startTime && currentTime <= s.endTime]. *)
Definition activeAt (currentTime : number) (subtitles : list Subtitle) : list Subtitle :=
  filter (fun s => PrimFloat.leb (startTime s) currentTime
                   && PrimFloat.leb currentTime (endTime s)) subtitles.

(** The double nearest to [n * 2^g], as the IEEE-754 specification of
    the standard library builds it. *)
Definition scaled (n g : Z) : spec_float := binary_normalize prec emax n g false.

(** The normal form of a non-zero [n * 2^g] with [|n| < 2^53]: the sign,
    the 53-bit mantissa and the exponent. *)
Definition canon (n g : Z) : spec_float :=
  let q := Z.to_pos (Z.abs n) in
  let dq := Z.pos (digits2_pos q) in
  S754_finite (n <? 0) (Pos.shiftl_nat q (Z.to_nat (53 - dq))) (dq + g - 53).

(** [x] holds [n * 2^g] with [|n| < 2^51]: a time or a delta on the grid
    of the multiples of [2^g] (whole seconds for [g = 0], multiples of
    1/1024 s for [g = -10]). *)
Definition dyadic (g n : Z) (x : number) : Prop :=
  Z.abs n < 2 ^ 51 /\ Prim2SF x = scaled n g.

Definition on_grid (g : Z) (x : number) : Prop := exists n, dyadic g n x.

(** The first of two nudges does not clamp the bound [t], or the second
    delta is not positive. *)
Definition keeps (d1 d2 t : number) : bool :=
  negb (PrimFloat.ltb (t + d1) 0) || negb (PrimFloat.ltb 0 d2).

End Cues.

(* ===================================================================== *)
(** ** App: the editor state and its edit history *)
(* ===================================================================== *)

Module App.
Import JS Cues.

Inductive ProcessingStatus := IDLE | UPLOADING | ANALYZING | TRANSLATING | READY | ERROR.

(** One call [mockBackend.saveUserWork(userId, subtitles, mediaName)]. *)
Record SaveCall := mkSaveCall {
  save_userId : string;
  save_subtitles : list Subtitle;
  save_mediaName : string
}.

(** The [useState] cells the project and history handlers read or write.
    [subtitles] is [None] when the cell holds [undefined] (an out-of-range
    read of [history]); [autosaves] logs the calls made to the persistence
    collaborator, oldest first. The activity log is left out. *)
Record State := mkState {
  currentUser : option string;
  mediaUrl : option string;
  mediaName : string;
  subtitles : option (list Subtitle);
  processingStatus : ProcessingStatus;
  history : list (list Subtitle);
  historyIndex : Z;
  dubAudioUrl : option string;
  autosaves : list SaveCall
}.

(** The state of the first render. *)
Definition initial : State :=
  {| currentUser := None; mediaUrl := None; mediaName := "Untitled Project";
     subtitles := Some []; processingStatus := IDLE;
     history := []; historyIndex := -1; dubAudioUrl := None; autosaves := [] |}.

Definition setSubtitles (v : option (list Subtitle)) (st : State) : State :=
  {| currentUser := currentUser st; mediaUrl := mediaUrl st; mediaName := mediaName st;
     subtitles := v; processingStatus := processingStatus st;
     history := history st; historyIndex := historyIndex st;
     dubAudioUrl := dubAudioUrl st; autosaves := autosaves st |}.

Definition setHistory (v : list (list Subtitle)) (st : State) : State :=
  {| currentUser := currentUser st; mediaUrl := mediaUrl st; mediaName := mediaName st;
     subtitles := subtitles st; processingStatus := processingStatus st;
     history := v; historyIndex := historyIndex st;
     dubAudioUrl := dubAudioUrl st; autosaves := autosaves st |}.

Definition setHistoryIndex (v : Z) (st : State) : State :=
  {| currentUser := currentUser st; mediaUrl := mediaUrl st; mediaName := mediaName st;
     subtitles := subtitles st; processingStatus := processingStatus st;
     history := history st; historyIndex := v;
     dubAudioUrl := dubAudioUrl st; autosaves := autosaves st |}.

Definition setMediaUrl (v : option string) (st : State) : State :=
  {| currentUser := currentUser st; mediaUrl := v; mediaName := mediaName st;
     subtitles := subtitles st; processingStatus := processingStatus st;
     history := history st; historyIndex := historyIndex st;
     dubAudioUrl := dubAudioUrl st; autosaves := autosaves st |}.

Definition setMediaName (v : string) (st : State) : State :=
  {| currentUser := currentUser st; mediaUrl := mediaUrl st; mediaName := v;
     subtitles := subtitles st; processingStatus := processingStatus st;
     history := history st; historyIndex := historyIndex st;
     dubAudioUrl := dubAudioUrl st; autosaves := autosaves st |}.

Definition setDubAudioUrl (v : option string) (st : State) : State :=
  {| currentUser := currentUser st; mediaUrl := mediaUrl st; mediaName := mediaName st;
     subtitles := subtitles st; processingStatus := processingStatus st;
     history := history st; historyIndex := historyIndex st;
     dubAudioUrl := v; autosaves := autosaves st |}.

Definition setProcessingStatus (v : ProcessingStatus) (st : State) : State :=
  {| currentUser := currentUser st; mediaUrl := mediaUrl st; mediaName := mediaName st;
     subtitles := subtitles st; processingStatus := v;
     history := history st; historyIndex := historyIndex st;
     dubAudioUrl := dubAudioUrl st; autosaves := autosaves st |}.

(** [mockBackend.saveUserWork(...)], as seen from the component: one more
    logged call ([mediaName || 'Untitled Project'] happens in the backend). *)
Definition saveUserWork (userId : string) (subs : list Subtitle) (name : string)
    (st : State) : State :=
  {| currentUser := currentUser st; mediaUrl := mediaUrl st; mediaName := mediaName st;
     subtitles := subtitles st; processingStatus := processingStatus st;
     history := history st; historyIndex := historyIndex st;
     dubAudioUrl := dubAudioUrl st;
     autosaves := autosaves st ++ [mkSaveCall userId subs name] |}.

(** [addToHistory] (the spec's [commit]). *)
Definition addToHistory (newSubtitles : list Subtitle) (st : State) : State :=
  let newHistory := slice (history st) 0 (historyIndex st + 1) ++ [newSubtitles] in
  let st1 := setHistory newHistory st in
  let st2 := setHistoryIndex (Z.of_nat (List.length newHistory) - 1) st1 in
  match currentUser st with
  | Some uid => saveUserWork uid newSubtitles (mediaName st) st2
  | None => st2
  end.

Definition undo (st : State) : State :=
  if 0 <? historyIndex st then
    setSubtitles (index (history st) (historyIndex st - 1))
      (setHistoryIndex (historyIndex st - 1) st)
  else st.

Definition redo (st : State) : State :=
  if historyIndex st <? Z.of_nat (List.length (history st)) - 1 then
    setSubtitles (index (history st) (historyIndex st + 1))
      (setHistoryIndex (historyIndex st + 1) st)
  else st.

(** [handleFileUpload] once a file was chosen ([fileName], object [url]);
    the status ends [IDLE]. *)
Definition handleFileUpload (fileName url : string) (st : State) : State :=
  setProcessingStatus IDLE
    (setMediaUrl (Some url)
       (setMediaName fileName
          (setDubAudioUrl None
             (setHistoryIndex (-1)
                (setHistory []
                   (setSubtitles (Some [])
                      (setProcessingStatus UPLOADING st))))))).

(** [handleSync]: a [TypeError] on [undefined.map] leaves the state as is. *)
Definition handleSync (offsetMs : number) (st : State) : State :=
  let offsetSec := (offsetMs / 1000)%float in
  match subtitles st with
  | Some subs =>
      let newSubtitles := shiftAll offsetSec subs in
      addToHistory newSubtitles (setSubtitles (Some newSubtitles) st)
  | None => st
  end.

(** [handleReset]; [confirmed] is the answer of [window.confirm]. *)
Definition handleReset (confirmed : bool) (st : State) : State :=
  if confirmed then
    setDubAudioUrl None
      (setMediaUrl None
         (setHistoryIndex (-1)
            (setHistory []
               (setSubtitles (Some []) st))))
  else st.

(** The [onSelectFile] callback handed to the Drive picker, up to the
    timer that later sets the status back to [IDLE]. *)
Definition onSelectFile (url name : string) (st : State) : State :=
  setDubAudioUrl None
    (setHistory []
       (setSubtitles (Some [])
          (setMediaUrl (Some url)
             (setMediaName name
                (setProcessingStatus UPLOADING st))))).

(** The states reached from a fresh history by commits, undos and redos. *)
Inductive op := Commit (s : list Subtitle) | StepUndo | StepRedo.

Definition step (st : State) (o : op) : State :=
  match o with
  | Commit s => addToHistory s st
  | StepUndo => undo st
  | StepRedo => redo st
  end.

Definition run (ops : list op) (st : State) : State := fold_left step ops st.

Definition fresh (st : State) : Prop := history st = [] /\ historyIndex st = -1.

Definition reachable (st : State) : Prop :=
  exists st0 ops, fresh st0 /\ st = run ops st0.

(** The history invariant: the cursor is a valid index, or -1 exactly
    when there is no snapshot. *)
Definition cursor_ok (st : State) : Prop :=
  (history st = [] /\ historyIndex st = -1)
  \/ (0 <= historyIndex st < Z.of_nat (List.length (history st))).

End App.

(* ===================================================================== *)
(** ** Translate: the merge step of [translateSubtitlesWithGemini] *)
(* ===================================================================== *)

Module Translate.
Import JS.

(** One entry of the parsed response, as the response schema types it. *)
Record Translation := mkTranslation {
  id : string;
  translatedText : string
}.

(** [new Map(translations.map(t => [t.id, t.translatedText]))]: entries are
    set in order, a later entry for the same id replaces an earlier one. *)
Definition translationMap (translations : list Translation) : gmap string string :=
  fold_left (fun m t => <[id t := translatedText t]> m) translations ∅.

(** The [subtitles.map(...)] that applies the translations. *)
Definition applyTranslations (translations : list Translation)
    (subtitles : list Cues.Subtitle) : list Cues.Subtitle :=
  let m := translationMap translations in
  map (fun sub =>
         {| Cues.id := Cues.id sub;
            Cues.startTime := Cues.startTime sub;
            Cues.endTime := Cues.endTime sub;
            Cues.text := or_else (m !! Cues.id sub) (Cues.text sub);
            Cues.originalText :=
              Some (or_else (Cues.originalText sub) (Cues.text sub));
            Cues.speaker := Cues.speaker sub;
            Cues.confidence := Cues.confidence sub |})
      subtitles.

Inductive Outcome := Resolved (subs : list Cues.Subtitle) | Threw (message : string).


End Translate.

(* ===================================================================== *)
(** ** Speech: chunking, WAV header and the batch pipeline *)
(* ===================================================================== *)

Module Speech.
Import JS.

Definition is_terminator (c : ascii) : bool :=
  let n := code c in (n =? 46) || (n =? 33) || (n =? 63).

Definition push_unit (s : string) (c : ascii) : string := s ++ String c EmptyString.

(** The matches of [/[^.!?]+[.!?]+|[^.!?]+$/g], scanned left to right.
    [cur] is the match under construction and [closing] tells that its run
    of terminators has begun. A match starts at a non-terminator, takes the
    longest run of non-terminators and then the longest run of terminators;
    a run that reaches the end of the text matches by the second
    alternative. A terminator where no match is open is passed over. *)
Fixpoint matchSentences (cur : string) (closing : bool) (s : string) : list string :=
  match s with
  | EmptyString => match cur with EmptyString => [] | _ => [cur] end
  | String c s' =>
      if is_terminator c then
        match cur with
        | EmptyString => matchSentences EmptyString false s'
        | _ => matchSentences (push_unit cur c) true s'
        end
      else if closing then cur :: matchSentences (String c EmptyString) false s'
      else matchSentences (push_unit cur c) false s'
  end.

(** [text.match(...) || [text]]: [match] is [null] when nothing matches. *)
Definition sentencesOf (text : string) : list string :=
  match matchSentences EmptyString false text with
  | [] => [text]
  | l => l
  end.

Definition len (s : string) : Z := Z.of_nat (String.length s).

(** [if (currentChunk.trim()) chunks.push(currentChunk.trim())]. *)
Definition pushTrimmed (chunks : list string) (currentChunk : string) : list string :=
  if truthy (trim currentChunk) then chunks ++ [trim currentChunk] else chunks.

(** The [for (const sentence of sentences)] loop and the final push. *)
Fixpoint packSentences (maxChunkSize : Z) (sentences : list string)
    (chunks : list string) (currentChunk : string) : list string :=
  match sentences with
  | [] => pushTrimmed chunks currentChunk
  | sentence :: rest =>
      if maxChunkSize <? len (currentChunk ++ sentence)%string then
        packSentences maxChunkSize rest (pushTrimmed chunks currentChunk) sentence
      else
        packSentences maxChunkSize rest chunks
          (currentChunk ++ " " ++ sentence)%string
  end.

Definition splitTextIntoChunks (text : string) (maxChunkSize : Z) : list string :=
  packSentences maxChunkSize (sentencesOf text) [] EmptyString.

(** [concatenateAudioBuffers]: the buffers copied one after the other. *)
Definition concatenateAudioBuffers (buffers : list (list Byte.byte)) : list Byte.byte :=
  concat buffers.

Definition writeString (s : string) : list Byte.byte :=
  map byte_of_ascii (list_ascii_of_string s).

(** [view.setUint32(_, v, true)] and [view.setUint16(_, v, true)]:
    little-endian, the value taken modulo 2^32 (2^16). *)
Definition setUint32 (v : Z) : list Byte.byte :=
  [u8 v; u8 (v / 256); u8 (v / 65536); u8 (v / 16777216)].

Definition setUint16 (v : Z) : list Byte.byte := [u8 v; u8 (v / 256)].

(** [view.getUint32(offset, true)]. *)
Definition getUint32 (bytes : list Byte.byte) (offset : nat) : Z :=
  match skipn offset bytes with
  | b0 :: b1 :: b2 :: b3 :: _ =>
      byte_val b0 + 256 * byte_val b1 + 65536 * byte_val b2 + 16777216 * byte_val b3
  | _ => 0
  end.

(** [createWavHeader(dataLength, sampleRate)]: the 44 bytes in the order of
    their offsets 0, 4, 8, 12, 16, 20, 22, 24, 28, 32, 34, 36, 40. *)
Definition createWavHeader (dataLength sampleRate : Z) : list Byte.byte :=
  writeString "RIFF" ++ setUint32 (36 + dataLength)
  ++ writeString "WAVE" ++ writeString "fmt "
  ++ setUint32 16 ++ setUint16 1 ++ setUint16 1
  ++ setUint32 sampleRate ++ setUint32 (sampleRate * 2)
  ++ setUint16 2 ++ setUint16 16
  ++ writeString "data" ++ setUint32 dataLength.

(** What one awaited [ai.models.generateContent] call delivers: the promise
    rejects, or the response carries no [inlineData.data], or it carries the
    base64 string [data]. *)
Inductive Response := Rejected | NoInlineData | InlineData (data : string).

(** The body of one loop iteration after the call: throw, skip the chunk,
    or push one buffer. *)
Inductive Step := Throws | Skips | Pushes (buffer : list Byte.byte).

Definition handleResponse (r : Response) : Step :=
  match r with
  | Rejected => Throws
  | NoInlineData => Skips
  | InlineData base64Audio =>
      if truthy base64Audio then
        match atob base64Audio with
        | Some binaryString => Pushes (writeString binaryString)
        | None => Throws
        end
      else Skips
  end.

(** What an observer of the pipeline sees, in order. *)
Inductive Event :=
| Progress (percentage : number)
| Call (i : nat) (chunk : string)
| Delay.

Definition percent (i n : nat) : number :=
  Math_round ((of_nat i / of_nat n) * 100)%float.

Definition report (onProgress : bool) (percentage : number) : list Event :=
  if onProgress then [Progress percentage] else [].

Section Pipeline.

(** The speech-synthesis capability: the response to the [i]-th call, made
    with the text [chunk]. *)
Variable tts : nat -> string -> Response.

(** Whether the caller passed an [onProgress] callback. *)
Variable onProgress : bool.

(** The [for] loop from index [i] on, [n] being [chunks.length]: the buffers
    pushed so far ([None] once an iteration has thrown) and the events. *)
Fixpoint synthesize (n i : nat) (chunks : list string)
    (audioBuffers : list (list Byte.byte))
    : option (list (list Byte.byte)) * list Event :=
  match chunks with
  | [] => (Some audioBuffers, [])
  | chunk :: rest =>
      let before := report onProgress (percent i n) ++ [Call i chunk] in
      match handleResponse (tts i chunk) with
      | Throws => (None, before)
      | Skips =>
          let '(r, events) := synthesize n (S i) rest audioBuffers in
          (r, before ++ [Delay] ++ events)
      | Pushes buffer =>
          let '(r, events) := synthesize n (S i) rest (audioBuffers ++ [buffer]) in
          (r, before ++ [Delay] ++ events)
      end
  end.

Record Blob := mkBlob { blob_type : string; blob_bytes : list Byte.byte }.

(** A thrown value: an [Error] made by this code with its message, or
    whatever [generateContent] or [atob] threw. *)
Inductive Thrown := Error (message : string) | Foreign.

(** The promise settles with the object URL of a blob, or rejects. *)
Inductive Outcome := Resolved (blob : Blob) | Threw (e : Thrown).

Definition noAudioGenerated : Thrown := Error "No audio generated from batches.".
Definition dubFailed : Thrown := Error "Failed to generate audio dub.".

(** The [try] block of [generateDubbedAudio]. *)
Definition generateDubbedAudio_try (text : string) : Outcome * list Event :=
  let chunks := splitTextIntoChunks text 300 in
  match synthesize (List.length chunks) 0 chunks [] with
  | (None, events) => (Threw Foreign, events)
  | (Some audioBuffers, events) =>
      let events := events ++ report onProgress 100 in
      match audioBuffers with
      | [] => (Threw noAudioGenerated, events)
      | _ =>
          let rawPcmData := concatenateAudioBuffers audioBuffers in
          let header := createWavHeader (Z.of_nat (List.length rawPcmData)) 24000 in
          let finalBuffer := concatenateAudioBuffers [header; rawPcmData] in
          (Resolved (mkBlob "audio/wav" finalBuffer), events)
      end
  end.

(** [generateDubbedAudio]: whatever the [try] block throws is logged and
    replaced by one generic error. *)
Definition generateDubbedAudio (text : string) : Outcome * list Event :=
  match generateDubbedAudio_try text with
  | (Threw _, events) => (Threw dubFailed, events)
  | settled => settled
  end.

End Pipeline.

(** The steps of a run, chunk by chunk, and the buffers they push. *)
Fixpoint steps (tts : nat -> string -> Response) (i : nat) (chunks : list string)
    : list Step :=
  match chunks with
  | [] => []
  | chunk :: rest => handleResponse (tts i chunk) :: steps tts (S i) rest
  end.

Fixpoint pushed (l : list Step) : list (list Byte.byte) :=
  match l with
  | [] => []
  | Pushes buffer :: l' => buffer :: pushed l'
  | _ :: l' => pushed l'
  end.

Definition throws (l : list Step) : Prop := In Throws l.

(** The events of the iterations [i, i+1, ...] when none of them throws. *)
Fixpoint iterations (onProgress : bool) (n i : nat) (chunks : list string) : list Event :=
  match chunks with
  | [] => []
  | chunk :: rest =>
      report onProgress (percent i n) ++ [Call i chunk; Delay]
      ++ iterations onProgress n (S i) rest
  end.


(** A chunk is within the limit plus the one joining space, or it is one
    whole sentence, trimmed. *)
Definition chunk_ok (maxChunkSize : Z) (sentences : list string) (chunk : string) : Prop :=
  len chunk <= maxChunkSize + 1
  \/ exists sentence, In sentence sentences /\ chunk = trim sentence.

(** The text without the terminators it starts with. *)
Fixpoint dropTerminators (s : string) : string :=
  match s with
  | String c s' => if is_terminator c then dropTerminators s' else s
  | EmptyString => EmptyString
  end.

Fixpoint joined (l : list string) : string :=
  match l with
  | [] => EmptyString
  | s :: l' => (s ++ joined l')%string
  end.

(** The calls an event list records, in order. *)
Fixpoint calls (events : list Event) : list (nat * string) :=
  match events with
  | [] => []
  | Call i chunk :: rest => (i, chunk) :: calls rest
  | _ :: rest => calls rest
  end.

Fixpoint numbered (i : nat) (chunks : list string) : list (nat * string) :=
  match chunks with
  | [] => []
  | chunk :: rest => (i, chunk) :: numbered (S i) rest
  end.

End Speech.

(* ===================================================================== *)
(** ** Player: drift correction of the video player *)
(* ===================================================================== *)

Module Player.
Import JS.

(** The properties of a media element the player reads and writes. *)
Record MediaElement := mkMedia {
  currentTime : number;
  paused : bool;
  muted : bool;
  volume : number
}.

(** Writing [el.currentTime = t], taken as a plain assignment. *)
Definition seekTo (t : number) (el : MediaElement) : MediaElement :=
  {| currentTime := t; paused := paused el; muted := muted el; volume := volume el |}.

(** The refs and state of the [VideoPlayer] component: the primary element
    [videoRef], the dub element [audioRef] (absent while unmounted),
    [isSeekingRef], the [useDub] toggle, and the times handed to the
    parent's [onTimeUpdate], oldest first. *)
Record State := mkState {
  videoRef : option MediaElement;
  audioRef : option MediaElement;
  isSeekingRef : bool;
  useDub : bool;
  reportedTimes : list number
}.

(** [useDub && video && audio && !audio.paused &&
     Math.abs(audio.currentTime - video.currentTime) > 0.3]. *)
Definition drifted (useDub : bool) (video audio : MediaElement) : bool :=
  useDub && negb (paused audio)
  && gt (Math_abs (currentTime audio - currentTime video)%float) 0.3%float.

Definition handleTimeUpdate (time : number) (st : State) : State :=
  if negb (isSeekingRef st) then
    let audio' :=
      match videoRef st, audioRef st with
      | Some video, Some audio =>
          if drifted (useDub st) video audio
          then Some (seekTo (currentTime video) audio)
          else Some audio
      | _, a => a
      end in
    {| videoRef := videoRef st; audioRef := audio';
       isSeekingRef := isSeekingRef st; useDub := useDub st;
       reportedTimes := reportedTimes st ++ [time] |}
  else st.

End Player.

(* ===================================================================== *)
(** ** Backend: [login] of the local-storage backend *)
(* ===================================================================== *)

Module Backend.
Import JS.

Inductive UserRole := admin | user.

Record User := mkUser {
  id : string;
  email : string;
  name : string;
  role : UserRole;
  createdAt : Z;
  lastLoginAt : Z;
  googleDriveConnected : bool
}.

Record SessionLog := mkSession {
  session_id : string;
  userId : string;
  userEmail : string;
  startTime : Z;
  endTime : option Z;
  durationSeconds : option Z
}.

(** The three local-storage entries [login] touches: the users, the
    sessions and the active user id. *)
Record Storage := mkStorage {
  users : list User;
  sessions : list SessionLog;
  active_uid : option string
}.

Inductive Outcome := Resolved (u : User) | Threw (message : string).

Definition invalidCredentials : string :=
  "Invalid credentials. Please check your username/email and password.".

Definition decimal (z : Z) : string := NilZero.string_of_int (Z.to_int z).

(** [startSession(user)]; [t2] and [t3] are its two readings of
    [Date.now()]. *)
Definition startSession (u : User) (t2 t3 : Z) (db : Storage) : Storage :=
  {| users := users db;
     sessions := sessions db
                 ++ [mkSession ("s_" ++ decimal t2)%string (id u) (email u) t3 None None];
     active_uid := active_uid db |}.

Definition setActive (uid : string) (db : Storage) : Storage :=
  {| users := users db; sessions := sessions db; active_uid := Some uid |}.

Definition saveUsers (us : list User) (db : Storage) : Storage :=
  {| users := us; sessions := sessions db; active_uid := active_uid db |}.

(** The static admin account; [t1] is the reading of [Date.now()]. *)
Definition adminUser (t1 : Z) : User :=
  {| id := "admin_static_root"; email := "admin@amina.work";
     name := "Oussanat (Admin)"; role := admin; createdAt := 0;
     lastLoginAt := t1; googleDriveConnected := true |}.

(** [u.email.toLowerCase() === identifier.toLowerCase() || u.name === identifier]. *)
Definition matches (identifier : string) (u : User) : bool :=
  String.eqb (toLowerCase (email u)) (toLowerCase identifier)
  || String.eqb (name u) identifier.

(** [arr.findIndex(p)], [None] for -1. *)
Fixpoint findIndex {A} (p : A -> bool) (l : list A) : option nat :=
  match l with
  | [] => None
  | x :: l' => if p x then Some 0%nat
               else match findIndex p l' with
                    | Some i => Some (S i)
                    | None => None
                    end
  end.

(** [arr.find(p)] together with the position of the element found. *)
Fixpoint findAt {A} (p : A -> bool) (l : list A) : option (nat * A) :=
  match l with
  | [] => None
  | x :: l' => if p x then Some (0%nat, x)
               else match findAt p l' with
                    | Some (i, y) => Some (S i, y)
                    | None => None
                    end
  end.

Definition touch (t1 : Z) (u : User) : User :=
  {| id := id u; email := email u; name := name u; role := role u;
     createdAt := createdAt u; lastLoginAt := t1;
     googleDriveConnected := googleDriveConnected u |}.

Definition isAdminPair (identifier password : string) : bool :=
  String.eqb identifier "oussanat" && String.eqb password "oussanat98".

(** [login(identifier, password)]; [t1], [t2], [t3] are the readings of
    [Date.now()] in the order they are taken. The found user object is
    updated in place, so the array holds the update at the found position
    [p] before [users[userIndex] = user] stores it at the first position
    with the same id as well. *)
Definition login (identifier password : string) (t1 t2 t3 : Z) (db : Storage)
    : Outcome * Storage :=
  if isAdminPair identifier password then
    let a := adminUser t1 in
    (Resolved a, setActive (id a) (startSession a t2 t3 db))
  else
    match findAt (matches identifier) (users db) with
    | Some (p, found) =>
        let u := touch t1 found in
        let us := <[p := u]> (users db) in
        let db1 :=
          match findIndex (fun x => String.eqb (id x) (id u)) us with
          | Some userIndex => saveUsers (<[userIndex := u]> us) db
          | None => db
          end in
        (Resolved u, setActive (id u) (startSession u t2 t3 db1))
    | None => (Threw invalidCredentials, db)
    end.

End Backend.

(* ===================================================================== *)
(** ** Sample data of the end-to-end scenarios *)
(* ===================================================================== *)

Module Samples.
Import JS Cues App.

Definition cue (i : string) (s e : number) (t : string) : Subtitle :=
  mkSubtitle i s e t None None None.

(** Scenario A: [{0,2,"Hi"},{2,5,"There"}]. *)
Definition cuesA : list Subtitle := [cue "a" 0 2 "Hi"; cue "b" 2 5 "There"].

Definition withSubtitles (subs : list Subtitle) : State :=
  setSubtitles (Some subs) initial.

(** Scenario B: three distinct snapshots. *)
Definition S0 : list Subtitle := [cue "a" 0 2 "Hi"].
Definition S1 : list Subtitle := [cue "a" 0 2 "Hi!"].
Definition S2 : list Subtitle := [cue "a" 0 2 "Hello"].


(** A sentence of [n] code units: [n - 1] times [c], then a full stop. *)
Fixpoint filler (c : ascii) (n : nat) : string :=
  match n with
  | O => EmptyString
  | S O => "."
  | S m => String c (filler c m)
  end.

Fixpoint repeated (s : string) (n : nat) : string :=
  match n with
  | O => EmptyString
  | S m => (s ++ repeated s m)%string
  end.

(** Scenario D: three sentences of 200 code units, one chunk each. *)
Definition textD : string :=
  (filler "a" 200 ++ filler "b" 200 ++ filler "c" 200)%string.

(** Chunk 2 of 3 yields no audio; chunks 1 and 3 yield the bytes of
    ["Hi"] and ["yo"]. *)
Definition ttsD (i : nat) (chunk : string) : Speech.Response :=
  match i with
  | 0%nat => Speech.InlineData "SGk="
  | 1%nat => Speech.NoInlineData
  | _ => Speech.InlineData "eW8="
  end.

(** The first call succeeds, the second one is rejected. *)
Definition ttsRejecting (i : nat) (chunk : string) : Speech.Response :=
  match i with
  | 0%nat => Speech.InlineData "SGk="
  | _ => Speech.Rejected
  end.

Definition ttsSilent (i : nat) (chunk : string) : Speech.Response :=
  Speech.NoInlineData.

(** Two hundred sentences of 200 code units: two hundred chunks. *)
Definition text200 : string := repeated (filler "a" 200) 200.

(** Sentences of 200, 150 and 150 code units, no white space between. *)
Definition text301 : string :=
  (filler "a" 200 ++ filler "b" 150 ++ filler "c" 150)%string.


(** Every call yields the bytes of ["Hi"]. *)
Definition ttsSpeaking (i : nat) (chunk : string) : Speech.Response :=
  Speech.InlineData "SGk=".


(** A player whose dub runs half a second ahead of the video. *)
Definition drifting : Player.State :=
  Player.mkState (Some (Player.mkMedia 10 false true 1))
                 (Some (Player.mkMedia 10.5 false false 1))
                 false true [].

(** One registered user. *)
Definition amina : Backend.User :=
  Backend.mkUser "u_1" "Amina@Work.io" "Amina" Backend.user 5 6 false.

Definition db1 : Backend.Storage := Backend.mkStorage [amina] [] None.

End Samples.

(* ===================================================================== *)
(** ** Editor: the remaining handlers of the [App] component *)
(* ===================================================================== *)

Module Editor.
Import JS Cues App.





(** The handlers below run from a rendered view, and a render with
    [undefined] cues throws; in such a state they leave the state alone. *)


(** [onCommitChanges]. *)
Definition onCommitChanges (st : State) : State :=
  match subtitles st with
  | Some subs => addToHistory subs st
  | None => st
  end.

(** [onDeleteSubtitle]. *)
Definition onDeleteSubtitle (id : string) (st : State) : State :=
  match subtitles st with
  | Some subs =>
      let newSubs := filter (fun s => negb (String.eqb (Cues.id s) id)) subs in
      addToHistory newSubs (setSubtitles (Some newSubs) st)
  | None => st
  end.



(** [loadUserProject] once [mockBackend.loadUserWork] has answered: [data]
    is [None] for [null], else the stored cues and media name. *)
Definition loadUserProject (data : option (list Subtitle * option string))
    (st : State) : State :=
  match data with
  | Some (subs, name) =>
      setMediaName (or_else name "Untitled Project")
        (setHistoryIndex 0
           (setHistory [subs]
              (setSubtitles (Some subs) st)))
  | None => st
  end.





(** The name [handleExport] gives the download:
    [mediaName.replace(/\.[^/.]+$/, "") + `_subs.${format}`]. The pattern
    matches at the first dot that is followed, up to the end of the name,
    by one or more characters other than ['/'] and ['.']. *)
Definition in_extension (c : ascii) : bool :=
  negb (code c =? 47) && negb (code c =? 46).

Fixpoint all_units (p : ascii -> bool) (s : string) : bool :=
  match s with
  | EmptyString => true
  | String c s' => p c && all_units p s'
  end.

Fixpoint stripExtension (s : string) : string :=
  match s with
  | EmptyString => EmptyString
  | String c s' =>
      if (code c =? 46) && negb (String.eqb s' EmptyString) && all_units in_extension s'
      then EmptyString
      else String c (stripExtension s')
  end.

Definition exportFilename (mediaName format : string) : string :=
  (stripExtension mediaName ++ "_subs." ++ format)%string.

End Editor.

(* ===================================================================== *)
(** ** Gemini: response cleaning and the transcription result *)
(* ===================================================================== *)

Module Gemini.
Import JS Cues App.

(** [s.replace(/pat/g, '')] for a literal, non-empty pattern: scanning from
    the left, each occurrence found is dropped and the scan resumes after
    it. [skip] counts the code units of a found occurrence still to drop. *)
Fixpoint removeAllFrom (pat : string) (skip : nat) (s : string) : string :=
  match s with
  | EmptyString => EmptyString
  | String c s' =>
      match skip with
      | S k => removeAllFrom pat k s'
      | O =>
          if String.prefix pat s
          then removeAllFrom pat (String.length pat - 1) s'
          else String c (removeAllFrom pat 0 s')
      end
  end.

Definition removeAll (pat s : string) : string := removeAllFrom pat 0 s.

Definition fence : string := String "`" (String "`" (String "`" EmptyString)).

(** [cleanJson]. *)
Definition cleanJson (text : string) : string :=
  trim (removeAll fence (removeAll (fence ++ "json") text)).

(** One entry of the parsed transcription, as the response schema types
    it ([speaker] is not required). *)
Record RawItem := mkRaw {
  raw_startTime : string;
  raw_endTime : string;
  raw_speaker : option string;
  raw_text : string
}.

(** The parsed response object; both keys may be missing. *)
Record RawResult := mkRawResult {
  raw_subtitles : option (list RawItem);
  raw_detectedLanguage : option string
}.

Record GenerationResult := mkResult {
  subtitles : list Subtitle;
  detectedLanguage : string
}.

Inductive Outcome := Resolved (r : GenerationResult) | Threw (message : string).

(** [`${index}`] for an array index. *)
Definition digits (n : nat) : string := NilEmpty.string_of_uint (Nat.to_uint n).

Section Transcription.

(** [parseTime] of the utilities, which the sources do not include: the
    seconds it returns, or [None] when it throws. *)
Variable parseTime : string -> option number.

(** The reading of [Date.now()] taken for the item at each index. *)
Variable now : nat -> Z.

(** [rawSubtitles.map((item, index) => ...)] from [index] on; a throwing
    [parseTime] ends the whole map. *)
Fixpoint toSubtitles (index : nat) (items : list RawItem) : option (list Subtitle) :=
  match items with
  | [] => Some []
  | item :: rest =>
      match parseTime (raw_startTime item), parseTime (raw_endTime item),
            toSubtitles (S index) rest with
      | Some s, Some e, Some l =>
          Some ({| Cues.id := ("auto-" ++ digits index ++ "-"
                               ++ Backend.decimal (now index))%string;
                   startTime := s;
                   endTime := e;
                   text := raw_text item;
                   originalText := None;
                   speaker := Some (or_else (raw_speaker item) "Unknown");
                   confidence := Some 0.95%float |} :: l)
      | _, _, _ => None
      end
  end.

(** [generateSubtitlesFromMedia]; [response] is the parsed answer, [None]
    when the media processing, the request or [JSON.parse] throws. *)
Definition generateSubtitlesFromMedia (response : option RawResult) : Outcome :=
  match response with
  | Some data =>
      let rawSubtitles := match raw_subtitles data with Some l => l | None => [] end in
      match toSubtitles 0 rawSubtitles with
      | Some subs =>
          Resolved (mkResult subs (or_else (raw_detectedLanguage data) "Unknown"))
      | None => Threw "Failed to generate subtitles. Please check if the file is valid."
      end
  | None => Threw "Failed to generate subtitles. Please check if the file is valid."
  end.

(** [handleGenerate]; [fileChosen] tells whether the file input holds a
    file. The status message and the activity log are left out. *)
Definition handleGenerate (fileChosen : bool) (response : option RawResult)
    (st : State) : State :=
  if fileChosen then
    match generateSubtitlesFromMedia response with
    | Resolved r =>
        setProcessingStatus READY
          (addToHistory (subtitles r) (setSubtitles (Some (subtitles r)) st))
    | Threw _ => setProcessingStatus ERROR st
    end
  else st.

End Transcription.

End Gemini.

(* ===================================================================== *)
(** ** Effects: the other effects and handlers of the video player *)
(* ===================================================================== *)

Module Effects.
Import JS Player.


Definition setMuted (b : bool) (el : MediaElement) : MediaElement :=
  {| currentTime := currentTime el; paused := paused el; muted := b; volume := volume el |}.

Definition setVolume (v : number) (el : MediaElement) : MediaElement :=
  {| currentTime := currentTime el; paused := paused el; muted := muted el; volume := v |}.



Definition withTracks (video : MediaElement) (audio : option MediaElement)
    (st : State) : State :=
  {| videoRef := Some video; audioRef := audio;
     isSeekingRef := isSeekingRef st; useDub := useDub st;
     reportedTimes := reportedTimes st |}.


(** The volume and mute effect, run with the shared [volume] and
    [isMuted]. *)
Definition syncVolume (vol : number) (isMuted : bool) (st : State) : State :=
  match videoRef st with
  | None => st
  | Some video =>
      match audioRef st with
      | Some audio =>
          if useDub st then
            withTracks (setMuted true video)
                       (Some (setMuted isMuted (setVolume vol audio))) st
          else
            withTracks (setMuted isMuted (setVolume vol video))
                       (Some (setMuted true audio)) st
      | None => withTracks (setMuted isMuted (setVolume vol video)) None st
      end
  end.

(** The effect that follows the parent's [currentTime]. *)
Definition syncExternalTime (time : number) (st : State) : State :=
  match videoRef st with
  | None => st
  | Some video =>
      if isSeekingRef st then st
      else if gt (Math_abs (currentTime video - time)%float) 0.2%float then
        withTracks (seekTo time video)
          (match audioRef st with
           | Some audio => Some (seekTo time audio)
           | None => None
           end)
          st
      else st
  end.




End Effects.

(* ===================================================================== *)
(** ** Accounts: the other account operations of the backend *)
(* ===================================================================== *)

Module Accounts.
Import JS Backend.

Definition emailTaken (newEmail : string) (us : list User) : bool :=
  existsb (fun u => String.eqb (toLowerCase (email u)) (toLowerCase newEmail)) us.

Definition emailInUse : string :=
  "This email is already associated with an account. Please log in.".

(** [signup(email, password, name)]. [newId] is the generated id
    [`u_${Date.now()}_${random}`]; [tc] and [tl] are the readings of
    [Date.now()] stored as [createdAt] and [lastLoginAt], [t2] and [t3]
    those of [startSession]. *)
Definition signup (newEmail password newName newId : string) (tc tl t2 t3 : Z)
    (db : Storage) : Outcome * Storage :=
  if emailTaken newEmail (users db) then (Threw emailInUse, db)
  else
    let newUser :=
      {| id := newId; email := newEmail; name := newName; role := user;
         createdAt := tc; lastLoginAt := tl; googleDriveConnected := false |} in
    (Resolved newUser,
     setActive newId (startSession newUser t2 t3 (saveUsers (users db ++ [newUser]) db))).

(** [getCurrentUser()]; [t] is the reading of [Date.now()] put in the
    static admin account. An empty id is falsy. *)
Definition getCurrentUser (t : Z) (db : Storage) : option User :=
  match active_uid db with
  | Some userId =>
      if String.eqb userId "admin_static_root" then Some (adminUser t)
      else if truthy userId then find (fun u => String.eqb (id u) userId) (users db)
      else None
  | None => None
  end.

Definition setDrive (b : bool) (u : User) : User :=
  {| id := id u; email := email u; name := name u; role := role u;
     createdAt := createdAt u; lastLoginAt := lastLoginAt u;
     googleDriveConnected := b |}.

(** [updateUserDriveStatus(userId, isConnected)]. *)
Definition updateUserDriveStatus (userId : string) (isConnected : bool)
    (db : Storage) : Storage :=
  match findAt (fun u => String.eqb (id u) userId) (users db) with
  | Some (i, u) => saveUsers (<[i := setDrive isConnected u]> (users db)) db
  | None => db
  end.

(** No two stored accounts share an e-mail address, letter case aside. *)
Definition emailsUnique (us : list User) : Prop :=
  List.NoDup (map (fun u => toLowerCase (email u)) us).

End Accounts.

(* ===================================================================== *)
(** ** Sessions: closing a session and the session list *)
(* ===================================================================== *)

Module Sessions.
Import JS.

(** A session entry as [Backend.SessionLog], with the duration as the
    number [endSession] computes. *)
Record Session := mkSession {
  id : string;
  userId : string;
  userEmail : string;
  startTime : Z;
  endTime : option Z;
  durationSeconds : option number
}.

(** The sessions entry and the active user id of the storage. *)
Record Store := mkStore {
  sessions : list Session;
  active_uid : option string
}.

(** The entry [startSession(user)] appends, [t2] and [t3] being its
    readings of [Date.now()]. *)
Definition opened (uid uemail : string) (t2 t3 : Z) : Session :=
  mkSession ("s_" ++ Backend.decimal t2)%string uid uemail t3 None None.

Definition startSession (uid uemail : string) (t2 t3 : Z) (l : list Session)
    : list Session :=
  l ++ [opened uid uemail t2 t3].

(** [!s.endTime]: absent, or zero. *)
Definition isOpen (s : Session) : bool :=
  match endTime s with
  | None => true
  | Some t => t =? 0
  end.

(** The entry with [endTime] and [durationSeconds] filled in. *)
Definition closed (t : Z) (s : Session) : Session :=
  {| id := id s; userId := userId s; userEmail := userEmail s;
     startTime := startTime s; endTime := Some t;
     durationSeconds := Some ((of_Z t - of_Z (startTime s)) / 1000)%float |}.

(** [endSession(userId)]; [t] is the reading of [Date.now()]. The open
    session is looked up from the newest entry backwards, and written back
    at the first entry of a freshly read list that has its id. *)
Definition endSession (uid : string) (t : Z) (l : list Session) : list Session :=
  match find (fun s => String.eqb (userId s) uid && isOpen s) (rev l) with
  | Some session =>
      let session' := closed t session in
      match Backend.findIndex (fun s => String.eqb (id s) (id session')) l with
      | Some targetIndex => <[targetIndex := session']> l
      | None => l
      end
  | None => l
  end.

(** [logout()]: an empty id is falsy. *)
Definition logout (t : Z) (st : Store) : Store :=
  match active_uid st with
  | Some uid =>
      if truthy uid then mkStore (endSession uid t (sessions st)) None
      else mkStore (sessions st) None
  | None => mkStore (sessions st) None
  end.

(** [arr.sort((a, b) => b.startTime - a.startTime)]: the order a stable
    sort gives, built by insertion from the right; an entry goes before
    the entries that started at the same time or earlier, all of which
    follow it in the array. *)
Fixpoint insertByStart (s : Session) (sorted : list Session) : list Session :=
  match sorted with
  | [] => [s]
  | x :: rest =>
      if startTime x <=? startTime s then s :: sorted
      else x :: insertByStart s rest
  end.

Fixpoint sortByStartDesc (l : list Session) : list Session :=
  match l with
  | [] => []
  | s :: rest => insertByStart s (sortByStartDesc rest)
  end.

(** [getAllSessions()]. *)
Definition getAllSessions (st : Store) : list Session := sortByStartDesc (sessions st).

End Sessions.

(* ===================================================================== *)
(** ** Projects: stored work, and the activity log *)
(* ===================================================================== *)

Module Projects.
Import JS.

Section Work.

(** The cue array of an entry, in the form the JSON text keeps it. *)
Variable Payload : Type.

Record UserProjectData := mkData {
  userId : string;
  subtitles : Payload;
  lastEdited : Z;
  mediaName : string
}.

(** [saveUserWork(userId, subtitles, mediaName)] on the array read from the
    storage; [t] is the reading of [Date.now()]. *)
Definition saveUserWork (uid : string) (subs : Payload) (name : option string)
    (t : Z) (allData : list UserProjectData) : list UserProjectData :=
  let userData := mkData uid subs t (or_else name "Untitled Project") in
  match Backend.findIndex (fun d => String.eqb (userId d) uid) allData with
  | Some existingIndex => <[existingIndex := userData]> allData
  | None => allData ++ [userData]
  end.

(** [loadUserWork(userId)], [None] for [null]. *)
Definition loadUserWork (uid : string) (allData : list UserProjectData)
    : option UserProjectData :=
  find (fun d => String.eqb (userId d) uid) allData.

End Work.

Inductive ActivityType := UPLOAD | GENERATE | TRANSLATE | EXPORT | DUB.

Section Log.

(** The free-form [details] of an activity. *)
Variable Details : Type.

Record ActivityLog := mkActivity {
  act_id : string;
  act_userId : string;
  act_userEmail : string;
  timestamp : Z;
  type : ActivityType;
  details : Details
}.

(** [logActivity(userId, type, details)] on the array read from the
    storage. [newId] is the generated id, [t] the reading of [Date.now()]
    stored as [timestamp], and [current] the answer of
    [getCurrentUser()]. *)
Definition logActivity (uid : string) (ty : ActivityType) (d : Details)
    (newId : string) (t : Z) (current : option Backend.User)
    (activities : list ActivityLog) : list ActivityLog :=
  let newLog :=
    mkActivity newId uid
      (or_else (option_map Backend.email current) "Unknown") t ty d in
  let activities := newLog :: activities in
  if 1000 <? Z.of_nat (List.length activities) then removelast activities
  else activities.

End Log.

End Projects.

(* ===================================================================== *)
(** ** Readers used to state properties *)
(* ===================================================================== *)

Module Readers.
Import JS.

(** A string without its white space. *)
Fixpoint squash (s : string) : string :=
  match s with
  | EmptyString => EmptyString
  | String c s' => if is_white_space c then squash s' else String c (squash s')
  end.

(** No code unit of the string is a backtick. *)
Definition no_backtick (s : string) : bool :=
  Editor.all_units (fun c => negb (code c =? 96)) s.

(** Every code unit of the string is a decimal digit. *)
Definition all_digits (s : string) : bool :=
  Editor.all_units (fun c => (48 <=? code c) && (code c <=? 57)) s.

(** [`auto-${index}-${t}`], the id given to the cue at [index]. *)
Definition autoId (index : nat) (t : Z) : string :=
  ("auto-" ++ Gemini.digits index ++ "-" ++ Backend.decimal t)%string.

(** [view.getUint16(offset, true)]. *)
Definition getUint16 (bytes : list Byte.byte) (offset : nat) : Z :=
  match skipn offset bytes with
  | b0 :: b1 :: _ => byte_val b0 + 256 * byte_val b1
  | _ => 0
  end.

(** The [n] bytes from [offset] on. *)
Definition bytesAt (bytes : list Byte.byte) (offset n : nat) : list Byte.byte :=
  firstn n (skipn offset bytes).

(** [a] may stand before [b] in a list ordered from the latest start. *)
Definition laterFirst (a b : Sessions.Session) : Prop :=
  Sessions.startTime b <= Sessions.startTime a.

End Readers.

(* ===================================================================== *)
(** * Properties *)
(* ===================================================================== *)

Example Math_round_samples :
  map JS.Math_round [0.5; 1.5; 2.4; 99.5; (-0.5); (-1.5); (-2.6); 0.49999999999999994; 14.499999999999998]%float
  = [1; 2; 2; 100; (-0); (-1); (-3); 0; 14]%float.
Proof. vm_compute. reflexivity. Qed.

Example trim_samples :
  map JS.trim ["  Hi. "; " "; ""; "a b"] = ["Hi."; ""; ""; "a b"].
Proof. reflexivity. Qed.

Example toLowerCase_sample : JS.toLowerCase "Amina@Work.IO" = "amina@work.io".
Proof. reflexivity. Qed.

Example slice_samples :
  JS.slice [1; 2; 3] 0 2 = [1; 2] /\ JS.slice [1; 2; 3] 0 0 = []
  /\ JS.slice ([] : list Z) 0 4 = [] /\ JS.slice [1; 2; 3] 0 (-1) = [1; 2].
Proof. repeat split. Qed.

(* --------------------------------------------------------------------- *)
(** ** Numbers: [Math.max(0, y)] *)
(* --------------------------------------------------------------------- *)

Import JS Cues.

Lemma Math_max_zero (y : number) :
  Math_max 0%float y
  = if PrimFloat.is_nan y then PrimFloat.nan
    else if PrimFloat.ltb 0 y then y else 0%float.
Proof.
  unfold Math_max.
  change (PrimFloat.is_nan 0%float) with false. cbn [orb].
  destruct (PrimFloat.is_nan y); [reflexivity|].
  destruct (PrimFloat.ltb 0 y); [reflexivity|].
  destruct (PrimFloat.ltb y 0); [reflexivity|].
  change (PrimFloat.classify 0%float) with PZero. reflexivity.
Qed.

Lemma ltb_zero_asym (y : number) :
  PrimFloat.ltb 0 y = true -> PrimFloat.ltb y 0 = false.
Proof.
  rewrite !FloatAxioms.ltb_spec.
  change (Prim2SF 0%float) with (S754_zero false).
  destruct (Prim2SF y) as [s| s| |s m e]; try destruct s; cbn; congruence.
Qed.

Lemma ltb_zero_not_nan (y : number) :
  PrimFloat.ltb 0 y = true -> PrimFloat.is_nan y = false.
Proof.
  unfold PrimFloat.is_nan. rewrite FloatAxioms.ltb_spec, FloatAxioms.eqb_spec.
  change (Prim2SF 0%float) with (S754_zero false).
  destruct (Prim2SF y) as [s| s| |s m e]; try destruct s; cbn; try congruence;
    intros _; unfold SFeqb, SFcompare;
    rewrite Z.compare_refl, Pos.compare_cont_refl; reflexivity.
Qed.

(** The clamp never yields a negative number (NaN is not negative). *)
Lemma Math_max_zero_nonneg (y : number) :
  PrimFloat.ltb (Math_max 0%float y) 0 = false.
Proof.
  rewrite Math_max_zero.
  destruct (PrimFloat.is_nan y); [reflexivity|].
  destruct (PrimFloat.ltb 0 y) eqn:E; [|reflexivity].
  now apply ltb_zero_asym.
Qed.

(** The clamp leaves a positive number, and +0, as they are. *)
Lemma Math_max_zero_id (y : number) :
  PrimFloat.ltb 0 y = true \/ y = 0%float -> Math_max 0%float y = y.
Proof.
  intros [H| ->]; [|reflexivity].
  rewrite Math_max_zero, (ltb_zero_not_nan _ H), H. reflexivity.
Qed.

(* --------------------------------------------------------------------- *)
(** ** The offset nudge ([handleSync]) *)
(* --------------------------------------------------------------------- *)

Import App Samples.

Lemma shiftAll_length d cues : List.length (shiftAll d cues) = List.length cues.
Proof. apply length_map. Qed.

Lemma shiftAll_nth d cues i c :
  nth_error cues i = Some c ->
  exists c', nth_error (shiftAll d cues) i = Some c'
    /\ startTime c' = Math_max 0%float (startTime c + d)%float
    /\ endTime c' = Math_max 0%float (endTime c + d)%float
    /\ id c' = id c /\ text c' = text c /\ originalText c' = originalText c
    /\ speaker c' = speaker c /\ confidence c' = confidence c.
Proof.
  intros H. unfold shiftAll. rewrite nth_error_map, H. cbn.
  eexists. split; [reflexivity|]. cbn. repeat split.
Qed.

Lemma shiftAll_nonneg d cues c' :
  In c' (shiftAll d cues) ->
  PrimFloat.ltb (startTime c') 0 = false /\ PrimFloat.ltb (endTime c') 0 = false.
Proof.
  unfold shiftAll. rewrite in_map_iff. intros [c [<- _]]. cbn.
  split; apply Math_max_zero_nonneg.
Qed.

Lemma handleSync_subtitles offsetMs st subs :
  subtitles st = Some subs ->
  subtitles (handleSync offsetMs st) = Some (shiftAll (offsetMs / 1000)%float subs).
Proof.
  intros H. unfold handleSync, addToHistory. rewrite H. cbn.
  destruct (currentUser st); reflexivity.
Qed.

(** C5. [shiftAll] moves every cue's [startTime] and [endTime] by the delta
    and clamps each bound at 0 on its own, leaving the other fields alone;
    no bound is negative afterwards; [handleSync(offsetMs)] stores
    [shiftAll(offsetMs / 1000)] of the current cues; and on
    [{0,2,"Hi"},{2,5,"There"}] a nudge of -1000 ms gives
    [{0,1,"Hi"},{1,4,"There"}]. *)
Theorem C5_shiftAll_clamps :
  forall (d : number) (cues : list Subtitle),
    List.length (shiftAll d cues) = List.length cues
    /\ (forall i c, nth_error cues i = Some c ->
          exists c', nth_error (shiftAll d cues) i = Some c'
            /\ startTime c' = Math_max 0%float (startTime c + d)%float
            /\ endTime c' = Math_max 0%float (endTime c + d)%float
            /\ id c' = id c /\ text c' = text c
            /\ originalText c' = originalText c
            /\ speaker c' = speaker c /\ confidence c' = confidence c)
    /\ (forall c', In c' (shiftAll d cues) ->
          PrimFloat.ltb (startTime c') 0 = false
          /\ PrimFloat.ltb (endTime c') 0 = false)
    /\ (forall offsetMs st,
          subtitles st = Some cues ->
          subtitles (handleSync offsetMs st)
          = Some (shiftAll (offsetMs / 1000)%float cues))
    /\ subtitles (handleSync (-1000)%float (withSubtitles cuesA))
       = Some [cue "a" 0 1 "Hi"; cue "b" 1 4 "There"].
Proof.
  intros d cues. split; [apply shiftAll_length|].
  split; [intros i c; apply shiftAll_nth|].
  split; [intros c'; apply shiftAll_nonneg|].
  split; [intros offsetMs st; apply handleSync_subtitles|].
  vm_compute. reflexivity.
Qed.

(* --------------------------------------------------------------------- *)
(** ** Doubles on a binary grid: sums that do not round *)
(* --------------------------------------------------------------------- *)

Lemma shl_add q j k :
  Pos.shiftl_nat (Pos.shiftl_nat q j) k = Pos.shiftl_nat q (k + j).
Proof. induction k as [|k IH]; [reflexivity|]. cbn. f_equal. exact IH. Qed.

Lemma iter_xO q p : Pos.iter xO q p = Pos.shiftl_nat q (Pos.to_nat p).
Proof.
  induction p as [|p IH] using Pos.peano_ind; [reflexivity|].
  rewrite Pos.iter_succ, Pos2Nat.inj_succ, IH. reflexivity.
Qed.

Lemma digits_shl q k :
  Z.pos (digits2_pos (Pos.shiftl_nat q k)) = Z.pos (digits2_pos q) + Z.of_nat k.
Proof.
  induction k as [|k IH]; [cbn; lia|].
  change (Pos.shiftl_nat q (S k)) with (xO (Pos.shiftl_nat q k)).
  cbn [digits2_pos]. lia.
Qed.

Lemma Zpos_shl q k : Z.pos (Pos.shiftl_nat q k) = Z.pos q * 2 ^ Z.of_nat k.
Proof.
  induction k as [|k IH]; [cbn; lia|].
  change (Pos.shiftl_nat q (S k)) with (xO (Pos.shiftl_nat q k)).
  rewrite Nat2Z.inj_succ, Z.pow_succ_r by lia. lia.
Qed.

Lemma shl_inj q q' k : Pos.shiftl_nat q k = Pos.shiftl_nat q' k -> q = q'.
Proof.
  induction k as [|k IH]; [trivial|].
  change (xO (Pos.shiftl_nat q k) = xO (Pos.shiftl_nat q' k) -> q = q').
  intros [= H]. apply IH, H.
Qed.

Lemma digits_size q : digits2_pos q = Pos.size q.
Proof. induction q as [q IH|q IH|]; cbn; [rewrite IH..|]; reflexivity. Qed.

(** A number below [2^b] has at most [b] binary digits. *)
Lemma digits_bound q b : 0 <= b -> Z.pos q < 2 ^ b -> Z.pos (digits2_pos q) <= b.
Proof.
  intros Hb H. rewrite digits_size.
  pose proof (Pos.size_le q) as L.
  apply Pos2Z.pos_le_pos in L. rewrite Pos2Z.inj_pow in L.
  change (Z.pos q~0) with (2 * Z.pos q) in L.
  destruct (Z.le_gt_cases (Z.pos (Pos.size q)) b) as [|G]; [assumption|].
  assert (2 ^ (b + 1) <= 2 ^ Z.pos (Pos.size q)) by (apply Z.pow_le_mono_r; lia).
  rewrite Z.pow_add_r in * by lia. lia.
Qed.

Lemma iter_pos_nat {A} (f : A -> A) p x :
  SpecFloat.iter_pos f p x = Nat.iter (Pos.to_nat p) f x.
Proof.
  revert x. induction p as [p IH|p IH|]; intros x; cbn [SpecFloat.iter_pos].
  - rewrite !IH, Pos2Nat.inj_xI, <- Nat.iter_add, <- Nat.iter_succ_r. f_equal. lia.
  - rewrite !IH, Pos2Nat.inj_xO, <- Nat.iter_add. f_equal. lia.
  - reflexivity.
Qed.

(** Shifting out zero bits loses nothing: the round and sticky bits stay
    clear. *)
Lemma shr_exact q j i :
  Nat.iter j shr_1
    {| shr_m := Z.pos (Pos.shiftl_nat q (j + i)); shr_r := false; shr_s := false |}
  = {| shr_m := Z.pos (Pos.shiftl_nat q i); shr_r := false; shr_s := false |}.
Proof.
  induction j as [|j IH]; [reflexivity|].
  rewrite Nat.iter_succ_r. exact IH.
Qed.

Lemma shr_exact0 q j :
  Nat.iter j shr_1
    {| shr_m := Z.pos (Pos.shiftl_nat q j); shr_r := false; shr_s := false |}
  = {| shr_m := Z.pos q; shr_r := false; shr_s := false |}.
Proof.
  pose proof (shr_exact q j 0) as H. rewrite Nat.add_0_r in H. exact H.
Qed.

Lemma shr_fexp_exact m j fe e :
  Z.pos (digits2_pos m) = 53 -> -1074 <= fe -> e = fe - Z.of_nat j ->
  shr_fexp prec emax (Z.pos (Pos.shiftl_nat m j)) e loc_Exact
  = ({| shr_m := Z.pos m; shr_r := false; shr_s := false |}, fe).
Proof.
  intros Hd Hfe ->. unfold shr_fexp, shr_record_of_loc. cbn [Zdigits2].
  rewrite digits_shl, Hd. unfold fexp, emin, prec, emax.
  replace (Z.max (53 + Z.of_nat j + (fe - Z.of_nat j) - 53) (3 - 1024 - 53)) with fe by lia.
  replace (fe - (fe - Z.of_nat j)) with (Z.of_nat j) by lia.
  unfold shr. destruct (Z.of_nat j) as [|p|p] eqn:E; [| |lia].
  - replace j with 0%nat by lia. f_equal. lia.
  - rewrite iter_pos_nat. replace (Pos.to_nat p) with j by lia.
    rewrite shr_exact0. f_equal. lia.
Qed.

(** Rounding a 53-bit mantissa followed by zero bits gives that mantissa. *)
Lemma round_aux_exact s m j fe :
  Z.pos (digits2_pos m) = 53 -> -1074 <= fe <= 971 ->
  binary_round_aux prec emax s (Z.pos (Pos.shiftl_nat m j)) (fe - Z.of_nat j) loc_Exact
  = S754_finite s m fe.
Proof.
  intros Hd Hfe. unfold binary_round_aux.
  rewrite (shr_fexp_exact m j fe) by (try reflexivity; lia).
  cbn [shr_m loc_of_shr_record round_nearest_even].
  assert (H2 := shr_fexp_exact m 0 fe fe Hd (proj1 Hfe)).
  change (Pos.shiftl_nat m 0) with m in H2.
  rewrite H2 by (cbn; lia).
  cbn [shr_m]. unfold prec, emax.
  replace (fe <=? 1024 - 53) with true by (symmetry; apply Z.leb_le; lia).
  reflexivity.
Qed.

(** [q * 2^k] at exponent [e - k] rounds to the normal form of [q * 2^e],
    whatever [k]: no bit of [q] is lost when [q] has at most 53 digits. *)
Lemma binary_round_canon s q k e :
  Z.pos (digits2_pos q) <= 53 ->
  -1074 <= Z.pos (digits2_pos q) + e - 53 <= 971 ->
  binary_round prec emax s (Pos.shiftl_nat q k) (e - Z.of_nat k)
  = S754_finite s (Pos.shiftl_nat q (Z.to_nat (53 - Z.pos (digits2_pos q))))
      (Z.pos (digits2_pos q) + e - 53).
Proof.
  intros Hd Hr. set (dq := Z.pos (digits2_pos q)) in *.
  set (m := Pos.shiftl_nat q (Z.to_nat (53 - dq))).
  assert (Hm : Z.pos (digits2_pos m) = 53).
  { unfold m. rewrite digits_shl. fold dq. lia. }
  unfold binary_round. rewrite digits_shl. fold dq.
  unfold fexp, emin, prec, emax.
  replace (Z.max (dq + Z.of_nat k + (e - Z.of_nat k) - 53) (3 - 1024 - 53))
    with (dq + e - 53) by lia.
  unfold shl_align.
  destruct (dq + e - 53 - (e - Z.of_nat k)) as [|p|p] eqn:D.
  - replace (Pos.shiftl_nat q k) with (Pos.shiftl_nat m 0)
      by (unfold m; cbn; f_equal; lia).
    replace (e - Z.of_nat k) with (dq + e - 53 - Z.of_nat 0) by (cbn; lia).
    apply round_aux_exact; [exact Hm|lia].
  - replace (Pos.shiftl_nat q k) with (Pos.shiftl_nat m (Pos.to_nat p))
      by (unfold m; rewrite shl_add; f_equal; lia).
    replace (e - Z.of_nat k) with (dq + e - 53 - Z.of_nat (Pos.to_nat p)) by lia.
    apply round_aux_exact; [exact Hm|lia].
  - rewrite iter_xO, shl_add.
    replace (Pos.shiftl_nat q (Pos.to_nat p + k)) with (Pos.shiftl_nat m 0)
      by (unfold m; cbn; f_equal; lia).
    replace (dq + e - 53) with (dq + e - 53 - Z.of_nat 0) at 1 by (cbn; lia).
    apply round_aux_exact; [exact Hm|lia].
Qed.

Lemma scaled_shift_canon n g k :
  n <> 0 -> Z.abs n < 2 ^ 53 -> -1022 <= g <= 971 ->
  scaled (n * 2 ^ Z.of_nat k) (g - Z.of_nat k) = canon n g.
Proof.
  intros Hn Hb Hg. unfold scaled, canon, binary_normalize.
  destruct n as [|p|p]; [contradiction| |].
  - rewrite <- Zpos_shl.
    change (Z.to_pos (Z.abs (Z.pos p))) with p. change (Z.pos p <? 0) with false.
    pose proof (digits_bound p 53 ltac:(lia) Hb).
    apply binary_round_canon; lia.
  - replace (Z.neg p * 2 ^ Z.of_nat k) with (Z.neg (Pos.shiftl_nat p k))
      by (rewrite <- Pos2Z.opp_pos, Zpos_shl; lia).
    change (Z.to_pos (Z.abs (Z.neg p))) with p. change (Z.neg p <? 0) with true.
    pose proof (digits_bound p 53 ltac:(lia) Hb).
    apply binary_round_canon; lia.
Qed.

Lemma scaled_canon n g :
  n <> 0 -> Z.abs n < 2 ^ 53 -> -1022 <= g <= 971 -> scaled n g = canon n g.
Proof.
  intros Hn Hb Hg. pose proof (scaled_shift_canon n g 0 Hn Hb Hg) as H.
  cbn [Z.of_nat] in H. rewrite Z.pow_0_r, Z.mul_1_r, Z.sub_0_r in H. exact H.
Qed.

Lemma scaled_shift n g k :
  Z.abs n < 2 ^ 53 -> -1022 <= g <= 971 ->
  scaled (n * 2 ^ Z.of_nat k) (g - Z.of_nat k) = scaled n g.
Proof.
  intros Hb Hg. destruct (Z.eq_dec n 0) as [->|Hn]; [reflexivity|].
  rewrite scaled_shift_canon, scaled_canon by assumption. reflexivity.
Qed.

Lemma shl_align_fst q a e ez :
  ez <= e ->
  Z.pos (fst (shl_align (Pos.shiftl_nat q a) e ez))
  = Z.pos q * 2 ^ (Z.of_nat a + (e - ez)).
Proof.
  intros H. unfold shl_align. destruct (ez - e) as [|p|p] eqn:D; [|lia|].
  - cbn [fst]. rewrite Zpos_shl. do 2 f_equal. lia.
  - cbn [fst]. rewrite iter_xO, shl_add, Zpos_shl. do 2 f_equal. lia.
Qed.

(** The IEEE-754 sum of two doubles on the grid is their exact sum. *)
Lemma SFadd_scaled n1 n2 g :
  Z.abs n1 < 2 ^ 52 -> Z.abs n2 < 2 ^ 52 -> -1022 <= g <= 971 ->
  SFadd prec emax (scaled n1 g) (scaled n2 g) = scaled (n1 + n2) g.
Proof.
  intros H1 H2 Hg.
  assert (2 ^ 52 < 2 ^ 53) by (apply Z.pow_lt_mono_r; lia).
  destruct (Z.eq_dec n1 0) as [->|N1].
  { destruct (Z.eq_dec n2 0) as [->|N2]; [reflexivity|].
    rewrite Z.add_0_l. rewrite (scaled_canon n2) by lia. reflexivity. }
  destruct (Z.eq_dec n2 0) as [->|N2].
  { rewrite Z.add_0_r. rewrite (scaled_canon n1) by lia. reflexivity. }
  rewrite (scaled_canon n1), (scaled_canon n2) by lia.
  unfold canon.
  set (q1 := Z.to_pos (Z.abs n1)). set (q2 := Z.to_pos (Z.abs n2)).
  set (d1 := Z.pos (digits2_pos q1)). set (d2 := Z.pos (digits2_pos q2)).
  assert (D1 : d1 <= 53) by (apply digits_bound; unfold q1; lia).
  assert (D2 : d2 <= 53) by (apply digits_bound; unfold q2; lia).
  cbn [SFadd].
  set (ez := Z.min (d1 + g - 53) (d2 + g - 53)).
  rewrite !shl_align_fst by (unfold ez; lia).
  replace (Z.of_nat (Z.to_nat (53 - d1)) + (d1 + g - 53 - ez)) with (g - ez) by lia.
  replace (Z.of_nat (Z.to_nat (53 - d2)) + (d2 + g - 53 - ez)) with (g - ez) by lia.
  replace (cond_Zopp (n1 <? 0) (Z.pos q1 * 2 ^ (g - ez))) with (n1 * 2 ^ (g - ez))
    by (unfold cond_Zopp, q1; destruct (Z.ltb_spec n1 0); rewrite Z2Pos.id; lia).
  replace (cond_Zopp (n2 <? 0) (Z.pos q2 * 2 ^ (g - ez))) with (n2 * 2 ^ (g - ez))
    by (unfold cond_Zopp, q2; destruct (Z.ltb_spec n2 0); rewrite Z2Pos.id; lia).
  rewrite <- Z.mul_add_distr_r.
  assert (K : 0 <= g - ez) by (unfold d1, d2 in *; unfold ez; lia).
  replace ez with (g - Z.of_nat (Z.to_nat (g - ez))) at 2 by lia.
  replace (g - ez) with (Z.of_nat (Z.to_nat (g - ez))) at 1 by lia.
  apply scaled_shift; lia.
Qed.

(** Two different grid points are two different doubles. *)
Lemma scaled_inj n m g :
  Z.abs n < 2 ^ 53 -> Z.abs m < 2 ^ 53 -> -1022 <= g <= 971 ->
  scaled n g = scaled m g -> n = m.
Proof.
  intros Hn Hm Hg.
  destruct (Z.eq_dec n 0) as [->|N]; destruct (Z.eq_dec m 0) as [->|M];
    try reflexivity.
  - rewrite (scaled_canon m) by assumption. discriminate.
  - rewrite (scaled_canon n) by assumption. discriminate.
  - rewrite (scaled_canon n), (scaled_canon m) by assumption. unfold canon.
    intros [= Hs Hq He].
    assert (Hd : Z.pos (digits2_pos (Z.to_pos (Z.abs n)))
                 = Z.pos (digits2_pos (Z.to_pos (Z.abs m)))) by lia.
    rewrite Hd in Hq. apply shl_inj in Hq.
    assert (Z.abs n = Z.abs m) by lia.
    destruct (Z.ltb_spec n 0), (Z.ltb_spec m 0); try discriminate; lia.
Qed.

(** The sign tests of a double on the grid are those of its numerator. *)
Lemma scaled_sign y n g :
  Prim2SF y = scaled n g -> Z.abs n < 2 ^ 53 -> -1022 <= g <= 971 ->
  PrimFloat.ltb 0 y = (0 <? n) /\ PrimFloat.ltb y 0 = (n <? 0)
  /\ PrimFloat.is_nan y = false.
Proof.
  intros Hy Hn Hg. unfold PrimFloat.is_nan.
  rewrite !FloatAxioms.ltb_spec, FloatAxioms.eqb_spec, Hy.
  change (Prim2SF 0%float) with (S754_zero false).
  destruct (Z.eq_dec n 0) as [->|N]; [repeat split|].
  rewrite (scaled_canon n) by assumption. unfold canon, SFltb, SFeqb, SFcompare.
  rewrite Z.compare_refl, Pos.compare_cont_refl.
  destruct (Z.ltb_spec n 0), (Z.ltb_spec 0 n); try lia; repeat split.
Qed.

Lemma add_scaled (x y : number) n1 n2 g :
  Prim2SF x = scaled n1 g -> Prim2SF y = scaled n2 g ->
  Z.abs n1 < 2 ^ 52 -> Z.abs n2 < 2 ^ 52 -> -1022 <= g <= 971 ->
  Prim2SF (x + y)%float = scaled (n1 + n2) g.
Proof.
  intros Hx Hy H1 H2 Hg. rewrite FloatAxioms.add_spec, Hx, Hy.
  apply SFadd_scaled; assumption.
Qed.

Lemma clamp_scaled (y : number) n g :
  Prim2SF y = scaled n g -> Z.abs n < 2 ^ 53 -> -1022 <= g <= 971 ->
  Prim2SF (Math_max 0%float y) = scaled (Z.max 0 n) g.
Proof.
  intros Hy Hn Hg. destruct (scaled_sign y n g Hy Hn Hg) as (L & _ & N).
  rewrite Math_max_zero, N, L. destruct (Z.ltb_spec 0 n).
  - rewrite Z.max_r by lia. exact Hy.
  - rewrite Z.max_l by lia. reflexivity.
Qed.

(** One bound under two nudges on the grid: the two clamped sums are
    [max 0 (max 0 (n + a) + b)] and [max 0 (n + (a + b))] grid steps, and
    they agree exactly when the first sum is not negative or [b] is not
    positive. *)
Lemma bound_composes g a b n (d1 d2 t : number) :
  -1022 <= g <= 971 -> dyadic g a d1 -> dyadic g b d2 -> dyadic g n t ->
  Math_max 0%float (Math_max 0%float (t + d1) + d2)%float
  = Math_max 0%float (t + (d1 + d2))%float
  <-> keeps d1 d2 t = true.
Proof.
  intros Hg [Ba Ha] [Bb Hb] [Bn Hn].
  change (2 ^ 51) with 2251799813685248 in *.
  assert (P52 : 2 ^ 52 = 4503599627370496) by reflexivity.
  assert (P53 : 2 ^ 53 = 9007199254740992) by reflexivity.
  assert (S1 : Prim2SF (t + d1)%float = scaled (n + a) g)
    by (apply add_scaled; try assumption; lia).
  assert (C1 : Prim2SF (Math_max 0%float (t + d1)%float) = scaled (Z.max 0 (n + a)) g)
    by (apply clamp_scaled; try assumption; lia).
  assert (S2 : Prim2SF (Math_max 0%float (t + d1) + d2)%float
               = scaled (Z.max 0 (n + a) + b) g)
    by (apply add_scaled; try assumption; lia).
  assert (C2 : Prim2SF (Math_max 0%float (Math_max 0%float (t + d1) + d2)%float)
               = scaled (Z.max 0 (Z.max 0 (n + a) + b)) g)
    by (apply clamp_scaled; try assumption; lia).
  assert (S3 : Prim2SF (d1 + d2)%float = scaled (a + b) g)
    by (apply add_scaled; try assumption; lia).
  assert (S4 : Prim2SF (t + (d1 + d2))%float = scaled (n + (a + b)) g)
    by (apply add_scaled; try assumption; lia).
  assert (C4 : Prim2SF (Math_max 0%float (t + (d1 + d2))%float)
               = scaled (Z.max 0 (n + (a + b))) g)
    by (apply clamp_scaled; try assumption; lia).
  destruct (scaled_sign _ _ g S1 ltac:(lia) Hg) as (_ & L1 & _).
  destruct (scaled_sign _ _ g Hb ltac:(lia) Hg) as (L2 & _ & _).
  unfold keeps. rewrite L1, L2. split.
  - intros E. apply (f_equal Prim2SF) in E. rewrite C2, C4 in E.
    apply scaled_inj in E; [|lia..].
    destruct (Z.ltb_spec (n + a) 0), (Z.ltb_spec 0 b); try reflexivity. lia.
  - intros K. apply Prim2SF_inj. rewrite C2, C4. f_equal.
    destruct (Z.ltb_spec (n + a) 0), (Z.ltb_spec 0 b); try discriminate K; lia.
Qed.

(** C6, as the code has it. On a cue list whose bounds are multiples of one
    power of two, with deltas that are multiples of it (whole seconds,
    halves, multiples of 1/1024 s, ...), the sums do not round, and two
    nudges equal the single nudge by [d1 + d2] if and only if, on every
    bound, the first nudge does not clamp or the second delta is not
    positive: a clamp followed by a nudge back up is the one thing that
    breaks the law there. *)
Theorem C6_shiftAll_compose :
  forall (g a b : Z) (d1 d2 : number) (cues : list Subtitle),
    -1022 <= g <= 971 ->
    dyadic g a d1 -> dyadic g b d2 ->
    (forall c, In c cues -> on_grid g (startTime c) /\ on_grid g (endTime c)) ->
    (shiftAll d2 (shiftAll d1 cues) = shiftAll (d1 + d2)%float cues
     <-> forall c, In c cues ->
           keeps d1 d2 (startTime c) = true /\ keeps d1 d2 (endTime c) = true).
Proof.
  intros g a b d1 d2 cues Hg Ha Hb Hcues. unfold shiftAll.
  rewrite map_map, map_ext_in_iff. cbn [startTime endTime Cues.id text originalText
                                        speaker confidence].
  split; intros H c Hc; specialize (H c Hc);
    destruct (Hcues c Hc) as [[n Hn] [m Hm]].
  - split.
    + apply (bound_composes g a b n d1 d2 _ Hg Ha Hb Hn).
      exact (f_equal startTime H).
    + apply (bound_composes g a b m d1 d2 _ Hg Ha Hb Hm).
      exact (f_equal endTime H).
  - destruct H as [Hs He].
    apply (bound_composes g a b n d1 d2 _ Hg Ha Hb Hn) in Hs.
    apply (bound_composes g a b m d1 d2 _ Hg Ha Hb Hm) in He.
    rewrite Hs, He. reflexivity.
Qed.

Lemma C6_shiftAll_compose_witness :
  shiftAll (-0.5)%float (shiftAll (-1)%float cuesA)
  = shiftAll (-1 + -0.5)%float cuesA.
Proof.
  refine (proj2 (C6_shiftAll_compose (-1) (-2) (-1) (-1)%float (-0.5)%float cuesA
                   _ _ _ _) _).
  - lia.
  - split; reflexivity.
  - split; reflexivity.
  - intros c [<-|[<-|[]]]; split;
      [exists 0|exists 4|exists 4|exists 10]; split; reflexivity.
  - intros c [<-|[<-|[]]]; split; reflexivity.
Defined.

(** C6 as stated fails with no clamping at all: on a cue that starts at
    0.1 s, nudges of 0.2 s and 0.3 s keep every bound positive, yet the
    start ends at 0.6000000000000001 after the two nudges and at 0.6 after
    the single nudge by their sum 0.5, because [(0.1 + 0.2) + 0.3] and
    [0.1 + (0.2 + 0.3)] round to different doubles. *)
Lemma C6_counterexample :
  let cues := [cue "a" 0.1 1 "x"] in
  (forall c, In c cues ->
     PrimFloat.ltb 0 (startTime c + 0.2) = true
     /\ PrimFloat.ltb 0 (endTime c + 0.2) = true
     /\ PrimFloat.ltb 0 ((startTime c + 0.2) + 0.3) = true
     /\ PrimFloat.ltb 0 ((endTime c + 0.2) + 0.3) = true
     /\ PrimFloat.ltb 0 (startTime c + (0.2 + 0.3)) = true
     /\ PrimFloat.ltb 0 (endTime c + (0.2 + 0.3)) = true)
  /\ map startTime (shiftAll 0.3%float (shiftAll 0.2%float cues))
     = [0.6000000000000001%float]
  /\ map startTime (shiftAll (0.2 + 0.3)%float cues) = [0.6%float]
  /\ shiftAll 0.3%float (shiftAll 0.2%float cues)
     <> shiftAll (0.2 + 0.3)%float cues.
Proof.
  cbv zeta. split; [|split; [|split]].
  - intros c [<-|[]]. vm_compute. repeat split.
  - vm_compute. reflexivity.
  - vm_compute. reflexivity.
  - intros H.
    apply (f_equal (fun l => match l with
                             | c :: _ => PrimFloat.eqb (startTime c) 0.6
                             | [] => false
                             end)) in H.
    vm_compute in H. discriminate H.
Qed.

(** On the grid, the law fails exactly as the equivalence says: a nudge
    of -1 s clamps the first start of [{0,2},{2,5}] at 0, and a nudge of
    +1 s then moves it to 1, while the single nudge by 0 leaves it at 0. *)
Example shiftAll_clamp_is_kept :
  keeps (-1)%float 1%float 0%float = false
  /\ shiftAll 1%float (shiftAll (-1)%float cuesA)
     = [cue "a" 1 2 "Hi"; cue "b" 2 5 "There"]
  /\ shiftAll (-1 + 1)%float cuesA = cuesA.
Proof. repeat split; vm_compute; reflexivity. Qed.

(* --------------------------------------------------------------------- *)
(** ** Edit history *)
(* --------------------------------------------------------------------- *)

Lemma slice_prefix {A} (l : list A) (e : Z) :
  0 <= e -> slice l 0 e = firstn (Z.to_nat e) l.
Proof.
  intros He. unfold slice.
  replace (0 <? 0) with false by reflexivity.
  replace (e <? 0) with false by (symmetry; apply Z.ltb_ge; exact He).
  replace (Z.to_nat (Z.min 0 (Z.of_nat (List.length l)))) with 0%nat by lia.
  rewrite skipn_O.
  destruct (Z.le_ge_cases e (Z.of_nat (List.length l))) as [Hle|Hge].
  - f_equal. lia.
  - rewrite !firstn_all2 by lia. reflexivity.
Qed.

Lemma addToHistory_history s st :
  history (addToHistory s st) = slice (history st) 0 (historyIndex st + 1) ++ [s].
Proof. unfold addToHistory. destruct (currentUser st); reflexivity. Qed.

Lemma addToHistory_index s st :
  historyIndex (addToHistory s st)
  = Z.of_nat (List.length (history (addToHistory s st))) - 1.
Proof. unfold addToHistory. destruct (currentUser st); reflexivity. Qed.

Lemma undo_history st : history (undo st) = history st.
Proof. unfold undo. destruct (0 <? historyIndex st); reflexivity. Qed.

Lemma redo_history st : history (redo st) = history st.
Proof. unfold redo. destruct (_ <? _); reflexivity. Qed.

Lemma redo_at_end st :
  historyIndex st = Z.of_nat (List.length (history st)) - 1 -> redo st = st.
Proof.
  intros H. unfold redo.
  replace (historyIndex st <? Z.of_nat (List.length (history st)) - 1) with false;
    [reflexivity|]. symmetry. apply Z.ltb_ge. lia.
Qed.

Lemma cursor_ok_addToHistory s st : cursor_ok (addToHistory s st).
Proof.
  right. rewrite addToHistory_index, addToHistory_history, length_app. cbn. lia.
Qed.

Lemma cursor_ok_undo st : cursor_ok st -> cursor_ok (undo st).
Proof.
  intros H. unfold undo. destruct (0 <? historyIndex st) eqn:E; [|exact H].
  apply Z.ltb_lt in E. destruct H as [[_ H]|H]; [lia|]. right. cbn. lia.
Qed.

Lemma cursor_ok_redo st : cursor_ok st -> cursor_ok (redo st).
Proof.
  intros H. unfold redo. destruct (_ <? _) eqn:E; [|exact H].
  apply Z.ltb_lt in E. destruct H as [[H1 H2]|H]; right; cbn; [|lia].
  rewrite H1 in E. cbn in E. lia.
Qed.

Lemma cursor_ok_step st o : cursor_ok st -> cursor_ok (step st o).
Proof.
  destruct o; cbn; [intros _; apply cursor_ok_addToHistory
                   |apply cursor_ok_undo|apply cursor_ok_redo].
Qed.

Lemma cursor_ok_run ops : forall st, cursor_ok st -> cursor_ok (run ops st).
Proof.
  induction ops as [|o ops IH]; intros st H; [exact H|].
  cbn. apply IH, cursor_ok_step, H.
Qed.

Lemma reachable_cursor_ok st : reachable st -> cursor_ok st.
Proof.
  intros (st0 & ops & Hfresh & ->). apply cursor_ok_run. left. exact Hfresh.
Qed.

Lemma undo_cursor st :
  cursor_ok st -> -1 <= historyIndex (undo st) <= historyIndex st.
Proof.
  intros H. unfold undo. destruct (0 <? historyIndex st) eqn:E.
  - apply Z.ltb_lt in E. cbn. lia.
  - destruct H as [[_ H]|H]; lia.
Qed.

(** C3. From any state reached by commits, undos and redos, an [undo]
    followed by [commit(S2)] keeps exactly the snapshots up to the cursor the
    undo left, appends [S2] and points the cursor at it, so that [redo] then
    changes nothing; when the cursor was above 0 the undo moved it back by
    one and restored that snapshot, and the snapshot the cursor had pointed
    at (and all later ones) are gone. *)
Theorem C3_commit_after_undo_truncates :
  forall (st : State) (S2 : list Subtitle),
    reachable st ->
    let st1 := undo st in
    let st2 := addToHistory S2 st1 in
    history st2 = firstn (Z.to_nat (historyIndex st1 + 1)) (history st) ++ [S2]
    /\ historyIndex st2 = Z.of_nat (List.length (history st2)) - 1
    /\ redo st2 = st2
    /\ redo (redo st2) = st2
    /\ (0 < historyIndex st ->
        historyIndex st1 = historyIndex st - 1
        /\ subtitles st1 = nth_error (history st) (Z.to_nat (historyIndex st - 1))
        /\ history st2 = firstn (Z.to_nat (historyIndex st)) (history st) ++ [S2]
        /\ historyIndex st2 = historyIndex st).
Proof.
  intros st S2 Hr st1 st2. subst st1 st2.
  pose proof (reachable_cursor_ok _ Hr) as Hok.
  pose proof (undo_cursor _ Hok) as Hu.
  assert (Hh : history (addToHistory S2 (undo st))
               = firstn (Z.to_nat (historyIndex (undo st) + 1)) (history st) ++ [S2]).
  { rewrite addToHistory_history, undo_history, slice_prefix by lia. reflexivity. }
  assert (Hredo : redo (addToHistory S2 (undo st)) = addToHistory S2 (undo st))
    by apply redo_at_end, addToHistory_index.
  split; [exact Hh|]. split; [apply addToHistory_index|].
  split; [exact Hredo|]. split; [rewrite Hredo; exact Hredo|].
  intros Hpos.
  assert (Hi : historyIndex (undo st) = historyIndex st - 1).
  { unfold undo. replace (0 <? historyIndex st) with true; [reflexivity|].
    symmetry. apply Z.ltb_lt. exact Hpos. }
  split; [exact Hi|]. split.
  - unfold undo. replace (0 <? historyIndex st) with true
      by (symmetry; apply Z.ltb_lt; exact Hpos).
    cbn. unfold index.
    replace (historyIndex st - 1 <? 0) with false; [reflexivity|].
    symmetry. apply Z.ltb_ge. lia.
  - split.
    + rewrite Hh, Hi. do 2 f_equal. lia.
    + rewrite addToHistory_index, Hh, Hi, length_app, length_firstn. cbn.
      destruct Hok as [[_ Hc]|Hc]; lia.
Qed.

(** Scenario B, read off the theorem: after [commit(S0)], [commit(S1)], the
    undo shows [S0]; [commit(S2)] leaves the history [[S0; S2]] with the
    cursor at 1, and [redo] is a no-op. *)
Lemma C3_commit_after_undo_witness :
  let st := run [Commit S0; Commit S1] initial in
  let st1 := undo st in
  let st2 := addToHistory S2 st1 in
  reachable st
  /\ subtitles st1 = Some S0
  /\ history st2 = [S0; S2]
  /\ historyIndex st2 = 1
  /\ redo st2 = st2.
Proof.
  intros st st1 st2.
  assert (Hr : reachable st).
  { exists initial, [Commit S0; Commit S1]. split; [split|]; reflexivity. }
  destruct (C3_commit_after_undo_truncates st S2 Hr) as (H1 & H2 & H3 & _ & H5).
  destruct (H5 eq_refl) as (_ & H6 & _ & H8).
  split; [exact Hr|]. split; [exact H6|]. split; [exact H1|].
  split; [exact H8|exact H3].
Defined.

(** Every commit, undo and redo keeps the cursor a valid index, or -1 on an
    empty history; so do a confirmed reset and a local file upload. *)
Lemma cursor_ok_handleReset st : cursor_ok (handleReset true st).
Proof. left. split; reflexivity. Qed.

Lemma cursor_ok_handleFileUpload f u st : cursor_ok (handleFileUpload f u st).
Proof. left. split; reflexivity. Qed.

Lemma handleReset_empties st :
  history (handleReset true st) = [] /\ historyIndex (handleReset true st) = -1.
Proof. split; reflexivity. Qed.

Lemma handleFileUpload_empties f u st :
  history (handleFileUpload f u st) = []
  /\ historyIndex (handleFileUpload f u st) = -1.
Proof. split; reflexivity. Qed.

(** The Drive import empties the history and leaves the cursor where it
    was. *)
Lemma onSelectFile_history url name st :
  history (onSelectFile url name st) = []
  /\ historyIndex (onSelectFile url name st) = historyIndex st.
Proof. split; reflexivity. Qed.

(** C4 at the failing input: one commit, then a Drive import. The history
    is empty and the cursor is still 0, which is no valid index; an [undo]
    is refused, and after one more commit and Drive import it reads
    [history[0]] of the empty array and stores [undefined] as cue list. *)
Theorem C4_drive_import_keeps_cursor :
  let st := onSelectFile "https://drive/flower.mp4" "Project_Flower_Edit_v2.mp4"
              (addToHistory S0 initial) in
  history st = []
  /\ historyIndex st = 0
  /\ ~ cursor_ok st
  /\ let st' := onSelectFile "https://drive/flower.mp4" "Project_Flower_Edit_v2.mp4"
                  (addToHistory S1 (addToHistory S0 initial)) in
     historyIndex st' = 1 /\ subtitles (undo st') = None.
Proof.
  cbv zeta. split; [reflexivity|]. split; [reflexivity|]. split.
  - intros [[_ H]|H]; cbn in H; [discriminate H|lia].
  - split; reflexivity.
Qed.

(* --------------------------------------------------------------------- *)
(** ** Translation merge *)
(* --------------------------------------------------------------------- *)

Import Translate.

Lemma translationMap_lookup_other (translations : list Translation) (k : string) :
  forall m : gmap string string,
    (forall t, In t translations -> Translate.id t <> k) ->
    fold_left (fun m t => <[Translate.id t := translatedText t]> m) translations m !! k
    = m !! k.
Proof.
  induction translations as [|t ts IH]; intros m H; [reflexivity|].
  cbn. rewrite IH by (intros t' Ht'; apply H; right; exact Ht').
  apply lookup_insert_ne, H. left. reflexivity.
Qed.

Lemma translationMap_missing (translations : list Translation) (k : string) :
  (forall t, In t translations -> Translate.id t <> k) ->
  translationMap translations !! k = None.
Proof.
  intros H. unfold translationMap.
  rewrite translationMap_lookup_other by exact H. apply lookup_empty.
Qed.

(** What the merge does to one cue: a cue whose id the response omits
    keeps its text; [originalText] is kept when it already holds a
    non-empty string, and is set to the current text when it is absent. *)
Lemma applyTranslations_cue translations subs i c :
  nth_error subs i = Some c ->
  exists c', nth_error (applyTranslations translations subs) i = Some c'
    /\ Cues.id c' = Cues.id c
    /\ startTime c' = startTime c /\ endTime c' = endTime c
    /\ ((forall t, In t translations -> Translate.id t <> Cues.id c) ->
        text c' = text c)
    /\ (forall o, originalText c = Some o -> o <> "" -> originalText c' = Some o)
    /\ (originalText c = None -> originalText c' = Some (text c)).
Proof.
  intros H. unfold applyTranslations. rewrite nth_error_map, H. cbn.
  eexists. split; [reflexivity|]. cbn.
  split; [reflexivity|]. split; [reflexivity|]. split; [reflexivity|].
  split; [|split].
  - intros Hmiss. rewrite (translationMap_missing _ _ Hmiss). reflexivity.
  - intros o -> Ho. cbn. unfold truthy.
    destruct (String.eqb_spec o ""); [contradiction|reflexivity].
  - intros ->. reflexivity.
Qed.

(** C8 at the failing input: a cue whose text is empty when it is first
    translated. The first translation records the empty original; the
    second one replaces it by the first translation's output. *)
Theorem C8_empty_original_overwritten :
  let first := applyTranslations [mkTranslation "a" "Hola"] [cue "a" 0 2 ""] in
  let second := applyTranslations [mkTranslation "a" "Bonjour"] first in
  map text first = ["Hola"]
  /\ map originalText first = [Some ""]
  /\ map text second = ["Bonjour"]
  /\ map originalText second = [Some "Hola"].
Proof. vm_compute. repeat split. Qed.

(* --------------------------------------------------------------------- *)
(** ** WAV header *)
(* --------------------------------------------------------------------- *)

Import Speech.

Lemma byte_val_u8 (z : Z) : byte_val (u8 z) = z mod 256.
Proof.
  unfold byte_val, u8, code. rewrite ascii_of_byte_of_ascii.
  assert (H : 0 <= z mod 256 < 256) by (apply Z.mod_pos_bound; lia).
  rewrite N_ascii_embedding by lia. lia.
Qed.

Lemma createWavHeader_length dataLength sampleRate :
  List.length (createWavHeader dataLength sampleRate) = 44%nat.
Proof. reflexivity. Qed.

Lemma le32_value (n : Z) :
  n mod 256 + 256 * ((n / 256) mod 256) + 65536 * ((n / 65536) mod 256)
  + 16777216 * ((n / 16777216) mod 256) = n mod 4294967296.
Proof.
  change 4294967296 with (256 * (256 * (256 * 256))).
  rewrite !Z.rem_mul_r by lia.
  rewrite !Z.div_div by lia.
  change (256 * 256) with 65536. change (65536 * 256) with 16777216. lia.
Qed.

(** The data-length field (offset 40) and the RIFF size field (offset 4)
    hold the lengths modulo 2^32. *)
Lemma createWavHeader_fields dataLength sampleRate :
  getUint32 (createWavHeader dataLength sampleRate) 40 = dataLength mod 4294967296
  /\ getUint32 (createWavHeader dataLength sampleRate) 4
     = (36 + dataLength) mod 4294967296.
Proof.
  split; unfold getUint32, createWavHeader; cbn [writeString list_ascii_of_string
    map app setUint32 setUint16 skipn]; rewrite !byte_val_u8; apply le32_value.
Qed.

(* --------------------------------------------------------------------- *)
(** ** The synthesis loop *)
(* --------------------------------------------------------------------- *)

Section Loop.
Variable tts : nat -> string -> Response.
Variable onProgress : bool.

(** A loop in which no iteration throws pushes the buffers of its steps, in
    order, and runs every iteration once. *)
Lemma synthesize_completes chunks :
  forall n i audioBuffers,
    ~ throws (steps tts i chunks) ->
    synthesize tts onProgress n i chunks audioBuffers
    = (Some (audioBuffers ++ pushed (steps tts i chunks)),
       iterations onProgress n i chunks).
Proof using Type.
  induction chunks as [|chunk rest IH]; intros n i bufs H; cbn.
  - rewrite app_nil_r. reflexivity.
  - cbn in H. unfold throws in H. cbn in H.
    destruct (handleResponse (tts i chunk)) eqn:E.
    + exfalso. apply H. left. reflexivity.
    + rewrite IH by (intros Hin; apply H; right; exact Hin).
      rewrite <- app_assoc. reflexivity.
    + rewrite IH by (intros Hin; apply H; right; exact Hin).
      rewrite <- !app_assoc. reflexivity.
Qed.

(** A loop in which some iteration throws stops at the first such
    iteration [k], right after its call. *)
Lemma synthesize_aborts chunks :
  forall n i audioBuffers,
    throws (steps tts i chunks) ->
    exists k chunk,
      nth_error chunks k = Some chunk
      /\ handleResponse (tts (i + k)%nat chunk) = Throws
      /\ ~ throws (steps tts i (firstn k chunks))
      /\ synthesize tts onProgress n i chunks audioBuffers
         = (None, iterations onProgress n i (firstn k chunks)
                  ++ report onProgress (percent (i + k) n)
                  ++ [Call (i + k)%nat chunk]).
Proof using Type.
  induction chunks as [|chunk rest IH]; intros n i bufs H; [destruct H|].
  cbn in H. unfold throws in H. cbn in H.
  destruct (handleResponse (tts i chunk)) eqn:E.
  - exists 0%nat, chunk. rewrite Nat.add_0_r. cbn. rewrite E.
    split; [reflexivity|]. split; [reflexivity|]. split; [intros []|].
    reflexivity.
  - destruct H as [H|H]; [discriminate H|].
    destruct (IH n (S i) bufs H) as (k & c & Hk & Hc & Hno & Heq).
    exists (S k), c. rewrite Nat.add_succ_r. cbn. rewrite E, Heq.
    split; [exact Hk|]. split; [exact Hc|]. split.
    + intros [F|F]; [discriminate F|]. exact (Hno F).
    + rewrite <- !app_assoc. reflexivity.
  - destruct H as [H|H]; [discriminate H|].
    destruct (IH n (S i) (bufs ++ [buffer]) H) as (k & c & Hk & Hc & Hno & Heq).
    exists (S k), c. rewrite Nat.add_succ_r. cbn. rewrite E, Heq.
    split; [exact Hk|]. split; [exact Hc|]. split.
    + intros [F|F]; [discriminate F|]. exact (Hno F).
    + rewrite <- !app_assoc. reflexivity.
Qed.

Lemma throws_dec (l : list Step) : {throws l} + {~ throws l}.
Proof using Type.
  unfold throws. induction l as [|s l IH]; [right; intros []|].
  destruct s; [left; left; reflexivity| |];
    (destruct IH as [IH|IH]; [left; right; exact IH|]);
    right; intros [F|F]; try discriminate F; exact (IH F).
Qed.

End Loop.

Lemma calls_app e1 e2 : calls (e1 ++ e2) = calls e1 ++ calls e2.
Proof.
  induction e1 as [|e e1 IH]; [reflexivity|].
  destruct e; cbn; rewrite IH; reflexivity.
Qed.

Lemma calls_report b p : calls (report b p) = [].
Proof. destruct b; reflexivity. Qed.

(** Every chunk is called exactly once, in order. *)
Lemma calls_iterations onProgress n chunks :
  forall i, calls (iterations onProgress n i chunks) = numbered i chunks.
Proof.
  induction chunks as [|chunk rest IH]; intros i; [reflexivity|].
  cbn. rewrite calls_app, calls_report. cbn. rewrite IH. reflexivity.
Qed.

(** With a callback, iteration [i] takes the events [3i], [3i+1], [3i+2]:
    the progress report, the call, the pause. *)
Lemma iterations_nth n chunks :
  forall i0 i chunk,
    nth_error chunks i = Some chunk ->
    let events := iterations true n i0 chunks in
    nth_error events (3 * i) = Some (Progress (percent (i0 + i) n))
    /\ nth_error events (3 * i + 1) = Some (Call (i0 + i)%nat chunk)
    /\ nth_error events (3 * i + 2) = Some Delay.
Proof.
  induction chunks as [|c rest IH]; intros i0 i chunk H; [destruct i; discriminate H|].
  destruct i as [|i].
  - cbn in H. injection H as ->. rewrite Nat.add_0_r. cbn. repeat split.
  - cbn in H. destruct (IH (S i0) i chunk H) as (H1 & H2 & H3).
    replace (3 * S i)%nat with (3 + 3 * i)%nat by lia.
    rewrite Nat.add_succ_r. cbn [iterations report app].
    change (3 + 3 * i + 1)%nat with (3 + (3 * i + 1))%nat.
    change (3 + 3 * i + 2)%nat with (3 + (3 * i + 2))%nat.
    cbn [nth_error Nat.add]. repeat split; assumption.
Qed.

(* --------------------------------------------------------------------- *)
(** ** The batch pipeline ([generateDubbedAudio]) *)
(* --------------------------------------------------------------------- *)

Lemma generateDubbedAudio_completes tts onProgress text :
  let chunks := splitTextIntoChunks text 300 in
  ~ throws (steps tts 0 chunks) ->
  generateDubbedAudio_try tts onProgress text
  = (match pushed (steps tts 0 chunks) with
     | [] => Threw noAudioGenerated
     | buffers =>
         let payload := concat buffers in
         Resolved (mkBlob "audio/wav"
                     (createWavHeader (Z.of_nat (List.length payload)) 24000 ++ payload))
     end,
     iterations onProgress (List.length chunks) 0 chunks ++ report onProgress 100).
Proof.
  intros chunks H. unfold generateDubbedAudio_try. fold chunks.
  rewrite (synthesize_completes tts onProgress chunks _ _ [] H). cbn [app].
  destruct (pushed (steps tts 0 chunks)) as [|b bs]; [reflexivity|].
  unfold concatenateAudioBuffers.
  cbn [concat]. rewrite app_nil_r. reflexivity.
Qed.

Lemma generateDubbedAudio_aborts tts onProgress text :
  let chunks := splitTextIntoChunks text 300 in
  throws (steps tts 0 chunks) ->
  exists k chunk,
    nth_error chunks k = Some chunk
    /\ handleResponse (tts k chunk) = Throws
    /\ generateDubbedAudio_try tts onProgress text
       = (Threw Foreign,
          iterations onProgress (List.length chunks) 0 (firstn k chunks)
          ++ report onProgress (percent k (List.length chunks)) ++ [Call k chunk]).
Proof.
  intros chunks H.
  destruct (synthesize_aborts tts onProgress chunks (List.length chunks) 0 [] H)
    as (k & chunk & Hk & Hc & _ & Heq).
  exists k, chunk. split; [exact Hk|]. split; [exact Hc|].
  unfold generateDubbedAudio_try. fold chunks. rewrite Heq. reflexivity.
Qed.

(** C1, as the code has it. The pipeline calls the capability once per
    chunk, in order, and skips a chunk whose response holds no data. It
    rejects, always with the generic error ["Failed to generate audio
    dub."], when a call or the decoding throws or when no chunk pushed a
    buffer; otherwise it resolves to the WAV blob made of one 44-byte header
    followed by the pushed buffers in chunk order, the header's data-length
    field being the payload length modulo 2^32. The error ["No audio
    generated from batches."] never leaves the function. *)
Theorem C1_batch_outcome :
  forall (tts : nat -> string -> Response) (onProgress : bool) (text : string),
    let chunks := splitTextIntoChunks text 300 in
    let l := steps tts 0 chunks in
    let payload := concat (pushed l) in
    let header := createWavHeader (Z.of_nat (List.length payload)) 24000 in
    let settled := generateDubbedAudio tts onProgress text in
    (throws l \/ pushed l = [] -> fst settled = Threw dubFailed)
    /\ (~ throws l -> pushed l <> [] ->
        fst settled = Resolved (mkBlob "audio/wav" (header ++ payload)))
    /\ (~ throws l -> calls (snd settled) = numbered 0 chunks)
    /\ List.length header = 44%nat
    /\ getUint32 header 40 = Z.of_nat (List.length payload) mod 4294967296
    /\ (Z.of_nat (List.length payload) < 4294967296 ->
        getUint32 header 40 = Z.of_nat (List.length payload))
    /\ fst settled <> Threw noAudioGenerated.
Proof.
  intros tts onProgress text chunks l payload header settled.
  assert (Hfield : getUint32 header 40 = Z.of_nat (List.length payload) mod 4294967296)
    by apply createWavHeader_fields.
  assert (Hdone : ~ throws l ->
            generateDubbedAudio_try tts onProgress text
            = (match pushed l with
               | [] => Threw noAudioGenerated
               | _ => Resolved (mkBlob "audio/wav" (header ++ payload))
               end,
               iterations onProgress (List.length chunks) 0 chunks
               ++ report onProgress 100)).
  { intros H. rewrite (generateDubbedAudio_completes tts onProgress text H).
    subst header payload l chunks. destruct (pushed _); reflexivity. }
  split; [|split; [|split; [|split; [|split; [|split]]]]].
  - intros [H|H].
    + destruct (generateDubbedAudio_aborts tts onProgress text H)
        as (k & c & _ & _ & Heq).
      subst settled. unfold generateDubbedAudio. rewrite Heq. reflexivity.
    + destruct (throws_dec l) as [Ht|Ht].
      * destruct (generateDubbedAudio_aborts tts onProgress text Ht)
          as (k & c & _ & _ & Heq).
        subst settled. unfold generateDubbedAudio. rewrite Heq. reflexivity.
      * subst settled. unfold generateDubbedAudio. rewrite (Hdone Ht), H. reflexivity.
  - intros Ht Hne. subst settled. unfold generateDubbedAudio. rewrite (Hdone Ht).
    destruct (pushed l); [contradiction|reflexivity].
  - intros Ht. subst settled. unfold generateDubbedAudio. rewrite (Hdone Ht).
    destruct (pushed l); cbn [snd]; rewrite calls_app, calls_report, app_nil_r;
      apply calls_iterations.
  - apply createWavHeader_length.
  - exact Hfield.
  - intros Hlt. rewrite Hfield. apply Z.mod_small. lia.
  - subst settled. unfold generateDubbedAudio.
    destruct (generateDubbedAudio_try tts onProgress text) as [[b|e] ev]; cbn;
      discriminate.
Qed.

(** Scenario D, read off the theorem: chunk 2 of 3 yields no audio; every
    chunk is called once, and the blob is the header for four bytes
    followed by the audio of chunks 1 and 3. *)
Lemma C1_batch_outcome_witness :
  splitTextIntoChunks textD 300 = [filler "a" 200; filler "b" 200; filler "c" 200]
  /\ steps ttsD 0 (splitTextIntoChunks textD 300)
     = [Pushes (writeString "Hi"); Skips; Pushes (writeString "yo")]
  /\ fst (generateDubbedAudio ttsD true textD)
     = Resolved (mkBlob "audio/wav" (createWavHeader 4 24000 ++ writeString "Hiyo"))
  /\ calls (snd (generateDubbedAudio ttsD true textD))
     = [(0%nat, filler "a" 200); (1%nat, filler "b" 200); (2%nat, filler "c" 200)].
Proof.
  assert (Hno : ~ throws (steps ttsD 0 (splitTextIntoChunks textD 300))).
  { vm_compute. intros [H|[H|[H|[]]]]; discriminate H. }
  assert (Hsome : pushed (steps ttsD 0 (splitTextIntoChunks textD 300)) <> []).
  { vm_compute. discriminate. }
  destruct (C1_batch_outcome ttsD true textD) as (_ & H2 & H3 & _).
  split; [vm_compute; reflexivity|]. split; [vm_compute; reflexivity|].
  split; [exact (H2 Hno Hsome)|exact (H3 Hno)].
Defined.

(** C1 as stated fails on the error and on the "only if". When no chunk
    yields audio, the caller gets the generic error and not the
    no-audio one; and a rejected call aborts the batch with that same error
    although the first chunk had produced audio. *)
Lemma C1_counterexample :
  pushed (steps ttsSilent 0 (splitTextIntoChunks "Hi." 300)) = []
  /\ fst (generateDubbedAudio ttsSilent true "Hi.") = Threw dubFailed
  /\ fst (generateDubbedAudio ttsSilent true "Hi.") <> Threw noAudioGenerated
  /\ steps ttsRejecting 0 (splitTextIntoChunks textD 300)
     = [Pushes (writeString "Hi"); Throws; Throws]
  /\ fst (generateDubbedAudio ttsRejecting true textD) = Threw dubFailed.
Proof.
  split; [vm_compute; reflexivity|].
  split; [vm_compute; reflexivity|].
  split; [vm_compute; discriminate|].
  split; vm_compute; reflexivity.
Qed.

(** Scenario D: chunk 2 of 3 yields no audio; the blob holds the header for
    four bytes and the audio of chunks 1 and 3, and the last report is 100. *)
Example scenario_D :
  splitTextIntoChunks textD 300 = [filler "a" 200; filler "b" 200; filler "c" 200]
  /\ generateDubbedAudio ttsD true textD
     = (Resolved (mkBlob "audio/wav" (createWavHeader 4 24000 ++ writeString "Hiyo")),
        [Progress 0; Call 0 (filler "a" 200); Delay;
         Progress 33; Call 1 (filler "b" 200); Delay;
         Progress 67; Call 2 (filler "c" 200); Delay;
         Progress 100]).
Proof. split; vm_compute; reflexivity. Qed.

(** C2, as the code has it. With a callback, the pipeline reports
    [Math.round(i / n * 100)] right before the call for chunk [i] (counting
    from 0, [n] chunks in all), pauses after the call, and reports 100 once
    more after the loop has run through every chunk, whatever the chunks
    yielded. If the call for chunk [k] throws, the events end with that
    call: nothing is reported after it. *)
Theorem C2_progress_reports :
  forall (tts : nat -> string -> Response) (text : string),
    let chunks := splitTextIntoChunks text 300 in
    let n := List.length chunks in
    let l := steps tts 0 chunks in
    let events := snd (generateDubbedAudio tts true text) in
    (~ throws l -> events = iterations true n 0 chunks ++ [Progress 100])
    /\ (forall i chunk,
          nth_error chunks i = Some chunk ->
          nth_error (iterations true n 0 chunks) (3 * i) = Some (Progress (percent i n))
          /\ nth_error (iterations true n 0 chunks) (3 * i + 1) = Some (Call i chunk)
          /\ nth_error (iterations true n 0 chunks) (3 * i + 2) = Some Delay)
    /\ (throws l ->
        exists k chunk,
          nth_error chunks k = Some chunk
          /\ handleResponse (tts k chunk) = Throws
          /\ events = iterations true n 0 (firstn k chunks)
                      ++ [Progress (percent k n); Call k chunk]).
Proof.
  intros tts text chunks n l events. split; [|split].
  - intros Ht. subst events. unfold generateDubbedAudio.
    rewrite (generateDubbedAudio_completes tts true text Ht).
    fold chunks. fold n. destruct (pushed _); reflexivity.
  - intros i chunk H. exact (iterations_nth n chunks 0 i chunk H).
  - intros Ht.
    destruct (generateDubbedAudio_aborts tts true text Ht) as (k & c & Hk & Hc & Heq).
    exists k, c. split; [exact Hk|]. split; [exact Hc|].
    subst events. unfold generateDubbedAudio. rewrite Heq. reflexivity.
Qed.

(** Scenario D, read off the theorem: three chunks, the second one silent;
    the reports are 0, 33 and 67 before the three calls and 100 at the
    end. *)
Lemma C2_progress_reports_witness :
  snd (generateDubbedAudio ttsD true textD)
  = [Progress 0; Call 0 (filler "a" 200); Delay;
     Progress 33; Call 1 (filler "b" 200); Delay;
     Progress 67; Call 2 (filler "c" 200); Delay;
     Progress 100].
Proof.
  assert (Hno : ~ throws (steps ttsD 0 (splitTextIntoChunks textD 300))).
  { vm_compute. intros [H|[H|[H|[]]]]; discriminate H. }
  exact (proj1 (C2_progress_reports ttsD textD) Hno).
Defined.

(** C2 as stated fails. The first report precedes every call, and 100 is
    reported although the only chunk yielded no audio; and on a text of 200
    chunks, all of which yield audio, 100 is reported before the call for
    the last chunk, since [Math.round(199 / 200 * 100)] is 100. *)
Lemma C2_counterexample :
  snd (generateDubbedAudio ttsSilent true "Hi.")
  = [Progress 0; Call 0 "Hi."; Delay; Progress 100]
  /\ List.length (splitTextIntoChunks text200 300) = 200%nat
  /\ percent 199 200 = 100%float
  /\ let events := snd (generateDubbedAudio ttsSpeaking true text200) in
     nth_error events 597 = Some (Progress 100)
     /\ nth_error events 598 = Some (Call 199 (filler "a" 200))
     /\ nth_error events 600 = Some (Progress 100)
     /\ List.length events = 601%nat.
Proof.
  split; [vm_compute; reflexivity|].
  split; [vm_compute; reflexivity|].
  split; [vm_compute; reflexivity|].
  vm_compute. repeat split.
Qed.

(* --------------------------------------------------------------------- *)
(** ** Chunking ([splitTextIntoChunks]) *)
(* --------------------------------------------------------------------- *)

(** C7 at the failing input: sentences of 200, 150 and 150 code units. The
    second chunk packs the last two sentences, joined by one space, and is
    301 code units long, although neither sentence exceeds 300. *)
Theorem C7_two_sentence_chunk_exceeds_limit :
  sentencesOf text301 = [filler "a" 200; filler "b" 150; filler "c" 150]
  /\ splitTextIntoChunks text301 300
     = [filler "a" 200; (filler "b" 150 ++ " " ++ filler "c" 150)%string]
  /\ map len (splitTextIntoChunks text301 300) = [200; 301].
Proof. repeat split; vm_compute; reflexivity. Qed.

(* --------------------------------------------------------------------- *)
(** ** Drift correction ([handleTimeUpdate]) *)
(* --------------------------------------------------------------------- *)

(** C9. A time update never changes the primary element. Outside a seek,
    with the dub in use and running, a gap of more than 0.3 s between the
    two positions moves the dub to the primary's position and changes
    nothing else of it; a gap that is not larger leaves the dub alone. *)
Theorem C9_drift_correction :
  forall (time : number) (st : Player.State),
    Player.videoRef (Player.handleTimeUpdate time st) = Player.videoRef st
    /\ (forall video audio,
          Player.isSeekingRef st = false ->
          Player.useDub st = true ->
          Player.videoRef st = Some video ->
          Player.audioRef st = Some audio ->
          Player.paused audio = false ->
          (gt (Math_abs (Player.currentTime audio - Player.currentTime video)%float)
              0.3%float = true ->
           Player.audioRef (Player.handleTimeUpdate time st)
           = Some (Player.seekTo (Player.currentTime video) audio))
          /\ (gt (Math_abs (Player.currentTime audio - Player.currentTime video)%float)
                 0.3%float = false ->
              Player.audioRef (Player.handleTimeUpdate time st) = Some audio)).
Proof.
  intros time st. split.
  - unfold Player.handleTimeUpdate. destruct (Player.isSeekingRef st); reflexivity.
  - intros video audio Hseek Hdub Hv Ha Hp.
    unfold Player.handleTimeUpdate, Player.drifted.
    rewrite Hseek, Hdub, Hv, Ha, Hp. cbn.
    split; intros ->; reflexivity.
Qed.

Lemma C9_drift_correction_witness :
  Player.videoRef (Player.handleTimeUpdate 10%float drifting)
  = Some (Player.mkMedia 10 false true 1)
  /\ Player.audioRef (Player.handleTimeUpdate 10%float drifting)
     = Some (Player.mkMedia 10 false false 1).
Proof.
  destruct (C9_drift_correction 10%float drifting) as [Hv Ha].
  split; [exact Hv|].
  exact (proj1 (Ha (Player.mkMedia 10 false true 1) (Player.mkMedia 10.5 false false 1)
                   eq_refl eq_refl eq_refl eq_refl eq_refl) eq_refl).
Defined.

(* --------------------------------------------------------------------- *)
(** ** Login *)
(* --------------------------------------------------------------------- *)

Lemma findAt_None {A} (p : A -> bool) (l : list A) :
  Backend.findAt p l = None <-> forall x, In x l -> p x = false.
Proof.
  induction l as [|x l IH]; cbn.
  - split; [intros _ y []|reflexivity].
  - destruct (p x) eqn:E.
    + split; [discriminate|]. intros H. rewrite (H x) in E by (left; reflexivity).
      discriminate E.
    + destruct (Backend.findAt p l) as [[i y]|].
      * split; [discriminate|]. intros H. exfalso.
        assert (F : Some (i, y) = None)
          by (apply IH; intros z Hz; apply H; right; exact Hz).
        discriminate F.
      * split; [|reflexivity]. intros _ z [<-|Hz]; [exact E|].
        apply (proj1 IH eq_refl z Hz).
Qed.

Lemma findAt_Some {A} (p : A -> bool) (l : list A) i x :
  Backend.findAt p l = Some (i, x) -> nth_error l i = Some x /\ p x = true.
Proof.
  revert i. induction l as [|y l IH]; intros i; cbn; [discriminate|].
  destruct (p y) eqn:E.
  - intros [= <- <-]. split; [reflexivity|exact E].
  - destruct (Backend.findAt p l) as [[j z]|]; [|discriminate].
    intros [= <- <-]. apply IH. reflexivity.
Qed.

(** C10. Unless the call is the hardcoded admin pair, [login] never looks at
    the password: two passwords give the same result and the same stored
    state. Such a login fails exactly when no stored user matches the
    identifier by e-mail (case-insensitively) or by exact name, and
    otherwise returns the first such user with only the login time
    refreshed. The admin pair yields the static admin account whatever is
    stored. *)
Theorem C10_login_ignores_password :
  forall (db : Backend.Storage) (identifier p1 p2 : string) (t1 t2 t3 : Z),
    Backend.isAdminPair identifier p1 = false ->
    Backend.isAdminPair identifier p2 = false ->
    Backend.login identifier p1 t1 t2 t3 db = Backend.login identifier p2 t1 t2 t3 db
    /\ (fst (Backend.login identifier p1 t1 t2 t3 db) = Backend.Threw Backend.invalidCredentials
        <-> forall u, In u (Backend.users db) -> Backend.matches identifier u = false)
    /\ (forall u, In u (Backend.users db) -> Backend.matches identifier u = true ->
        exists found i,
          nth_error (Backend.users db) i = Some found
          /\ Backend.matches identifier found = true
          /\ (forall j v, (j < i)%nat -> nth_error (Backend.users db) j = Some v ->
              Backend.matches identifier v = false)
          /\ fst (Backend.login identifier p1 t1 t2 t3 db)
             = Backend.Resolved (Backend.touch t1 found))
    /\ fst (Backend.login "oussanat" "oussanat98" t1 t2 t3 db)
       = Backend.Resolved (Backend.adminUser t1).
Proof.
  intros db identifier p1 p2 t1 t2 t3 H1 H2.
  unfold Backend.login. rewrite H1, H2.
  split; [reflexivity|]. split; [|split; [|reflexivity]].
  - destruct (Backend.findAt (Backend.matches identifier) (Backend.users db)) as [[i x]|] eqn:E.
    + cbn. split; [discriminate|]. intros H.
      destruct (findAt_Some _ _ _ _ E) as [Hn Hm].
      rewrite (H x) in Hm by (eapply nth_error_In; exact Hn). discriminate Hm.
    + cbn. split; [|reflexivity]. intros _. apply findAt_None. exact E.
  - intros u Hin Hm.
    destruct (Backend.findAt (Backend.matches identifier) (Backend.users db)) as [[i x]|] eqn:E.
    + destruct (findAt_Some _ _ _ _ E) as [Hn Hx].
      exists x, i. split; [exact Hn|]. split; [exact Hx|]. split; [|reflexivity].
      clear Hin Hm u Hn Hx. revert i E.
      induction (Backend.users db) as [|y l IH]; intros i E j v Hj Hv; [discriminate E|].
      cbn in E. destruct (Backend.matches identifier y) eqn:Ey.
      * injection E as <- <-. lia.
      * destruct (Backend.findAt (Backend.matches identifier) l) as [[k z]|] eqn:El;
          [|discriminate E].
        injection E as <- <-. destruct j as [|j]; cbn in Hv.
        -- injection Hv as <-. exact Ey.
        -- apply (IH k eq_refl j v); [lia|exact Hv].
    + rewrite (proj1 (findAt_None _ _) E u Hin) in Hm. discriminate Hm.
Qed.

Lemma C10_login_ignores_password_witness :
  Backend.login "amina@work.IO" "secret" 7 8 9 db1
  = Backend.login "amina@work.IO" "" 7 8 9 db1
  /\ fst (Backend.login "amina@work.IO" "secret" 7 8 9 db1)
     = Backend.Resolved (Backend.touch 7 amina)
  /\ fst (Backend.login "nobody" "secret" 7 8 9 db1) = Backend.Threw Backend.invalidCredentials.
Proof.
  split; [|split].
  - exact (proj1 (C10_login_ignores_password db1 "amina@work.IO" "secret" "" 7 8 9
                    eq_refl eq_refl)).
  - reflexivity.
  - apply (proj1 (proj2 (C10_login_ignores_password db1 "nobody" "secret" "" 7 8 9
                           eq_refl eq_refl))).
    intros u [<-|[]]. reflexivity.
Defined.

(** A login stamps the user, appends a session and records the active id. *)
Example login_storage_sample :
  snd (Backend.login "Amina" "whatever" 1700000000007 1700000000008 1700000000009 db1)
  = Backend.mkStorage
      [Backend.touch 1700000000007 amina]
      [Backend.mkSession "s_1700000000008" "u_1" "Amina@Work.io" 1700000000009 None None]
      (Some "u_1").
Proof. reflexivity. Qed.

(** The one password-sensitive login: a stored user named like the admin
    identifier is shadowed by the admin pair. *)
Example admin_pair_shadows_user :
  let db := Backend.mkStorage
              [Backend.mkUser "u_2" "o@x.io" "oussanat" Backend.user 1 2 false] [] None in
  fst (Backend.login "oussanat" "oussanat98" 7 8 9 db) = Backend.Resolved (Backend.adminUser 7)
  /\ fst (Backend.login "oussanat" "guess" 7 8 9 db)
     = Backend.Resolved (Backend.mkUser "u_2" "o@x.io" "oussanat" Backend.user 1 7 false).
Proof. split; reflexivity. Qed.

(* --------------------------------------------------------------------- *)
(** ** Chunk sizes *)
(* --------------------------------------------------------------------- *)

Lemma length_append (s1 s2 : string) :
  String.length (s1 ++ s2)%string = (String.length s1 + String.length s2)%nat.
Proof.
  induction s1 as [|c s1 IH]; [reflexivity|].
  change (S (String.length (s1 ++ s2)%string) = S (String.length s1 + String.length s2)).
  f_equal. exact IH.
Qed.

Lemma trimStart_length s : (String.length (trimStart s) <= String.length s)%nat.
Proof.
  induction s as [|c s IH]; cbn; [lia|].
  destruct (is_white_space c); cbn; lia.
Qed.

Lemma trimEnd_length s : (String.length (trimEnd s) <= String.length s)%nat.
Proof.
  induction s as [|c s IH]; cbn; [lia|].
  destruct (trimEnd s); [destruct (is_white_space c)|]; cbn in *; lia.
Qed.

Lemma trim_length s : len (trim s) <= len s.
Proof.
  unfold len, trim.
  pose proof (trimEnd_length (trimStart s)). pose proof (trimStart_length s). lia.
Qed.

Lemma pushTrimmed_ok maxChunkSize all chunks currentChunk :
  (forall c, In c chunks -> chunk_ok maxChunkSize all c) ->
  len currentChunk <= maxChunkSize + 1 \/ In currentChunk all ->
  forall c, In c (pushTrimmed chunks currentChunk) -> chunk_ok maxChunkSize all c.
Proof.
  intros Hc Hcur c. unfold pushTrimmed.
  destruct (truthy (trim currentChunk)); [|apply Hc].
  rewrite in_app_iff. intros [H|[<-|[]]]; [apply Hc, H|].
  destruct Hcur as [Hlen|Hin].
  - left. pose proof (trim_length currentChunk). lia.
  - right. exists currentChunk. split; [exact Hin|reflexivity].
Qed.

Lemma packSentences_ok maxChunkSize all sentences :
  forall chunks currentChunk,
    (forall s, In s sentences -> In s all) ->
    (forall c, In c chunks -> chunk_ok maxChunkSize all c) ->
    len currentChunk <= maxChunkSize + 1 \/ In currentChunk all ->
    forall c, In c (packSentences maxChunkSize sentences chunks currentChunk) ->
              chunk_ok maxChunkSize all c.
Proof.
  induction sentences as [|sentence rest IH]; intros chunks cur Hall Hc Hcur; cbn.
  - apply pushTrimmed_ok; assumption.
  - destruct (maxChunkSize <? len (cur ++ sentence)%string) eqn:E.
    + apply IH.
      * intros s Hs. apply Hall. right. exact Hs.
      * apply pushTrimmed_ok; assumption.
      * right. apply Hall. left. reflexivity.
    + apply IH.
      * intros s Hs. apply Hall. right. exact Hs.
      * exact Hc.
      * left. apply Z.ltb_ge in E. unfold len in *.
        rewrite !length_append in *. cbn [String.length]. lia.
Qed.

(** X1. Every chunk of [splitTextIntoChunks(text)] has at most 301 code
    units, or is one whole sentence of the text, trimmed. *)
Theorem chunk_size_bound (text : string) (chunk : string) :
  In chunk (splitTextIntoChunks text 300) ->
  len chunk <= 301
  \/ exists sentence, In sentence (sentencesOf text) /\ chunk = trim sentence.
Proof.
  intros H.
  apply (packSentences_ok 300 (sentencesOf text) (sentencesOf text) [] EmptyString);
    [auto|intros c []|left; unfold len; cbn [String.length]; lia|exact H].
Qed.

Lemma chunk_size_bound_witness :
  len (filler "b" 150 ++ " " ++ filler "c" 150)%string <= 301
  \/ exists sentence,
       In sentence (sentencesOf text301)
       /\ (filler "b" 150 ++ " " ++ filler "c" 150)%string = trim sentence.
Proof.
  apply (chunk_size_bound text301).
  right. left. vm_compute. reflexivity.
Defined.

(* --------------------------------------------------------------------- *)
(** ** Sentences *)
(* --------------------------------------------------------------------- *)

Lemma append_assoc (a b c : string) : ((a ++ b) ++ c)%string = (a ++ (b ++ c))%string.
Proof.
  induction a as [|x a IH]; [reflexivity|].
  change (String x ((a ++ b) ++ c)%string = String x (a ++ (b ++ c))%string).
  f_equal. exact IH.
Qed.

Lemma matchSentences_joined s :
  forall cur closing,
    joined (matchSentences cur closing s)
    = match cur with
      | EmptyString => dropTerminators s
      | _ => (cur ++ s)%string
      end.
Proof.
  induction s as [|c s IH]; intros cur closing.
  - destruct cur as [|x cur]; reflexivity.
  - cbn [matchSentences dropTerminators]. destruct (is_terminator c) eqn:E.
    + destruct cur as [|x cur]; [apply IH|].
      rewrite IH. unfold push_unit. cbn [append].
      change (String x ((cur ++ String c EmptyString) ++ s)%string
              = String x (cur ++ String c s)%string).
      rewrite append_assoc. reflexivity.
    + destruct closing.
      * cbn [joined]. rewrite IH. destruct cur; reflexivity.
      * rewrite IH. unfold push_unit.
        destruct cur as [|x cur]; [reflexivity|].
        change (String x ((cur ++ String c EmptyString) ++ s)%string
                = String x (cur ++ String c s)%string).
        rewrite append_assoc. reflexivity.
Qed.

(** X2. The sentences of a text, put end to end, are the text without the
    terminators it starts with; a text that holds a non-terminator is never
    replaced by the fallback. *)
Theorem sentences_cover_text (text : string) :
  joined (matchSentences EmptyString false text) = dropTerminators text
  /\ (dropTerminators text <> EmptyString ->
      joined (sentencesOf text) = dropTerminators text).
Proof.
  pose proof (matchSentences_joined text EmptyString false) as H. cbn in H.
  split; [exact H|]. intros Hne. unfold sentencesOf.
  destruct (matchSentences EmptyString false text) as [|x l]; [|exact H].
  cbn in H. congruence.
Qed.

(* --------------------------------------------------------------------- *)
(** ** Further properties of the cue store, the history and the merge *)
(* --------------------------------------------------------------------- *)

(** [activeAt(t)] keeps exactly the cues with [start <= t <= end], in
    store order: it is a sublist, and membership is the time test. *)
Theorem activeAt_spec (t : number) (cues : list Subtitle) :
  sublist (activeAt t cues) cues
  /\ forall c, In c (activeAt t cues)
               <-> In c cues /\ PrimFloat.leb (startTime c) t = true
                   /\ PrimFloat.leb t (endTime c) = true.
Proof.
  split.
  - unfold activeAt. apply sublist_filter.
  - intros c. unfold activeAt. rewrite <- !list_elem_of_In, list_elem_of_filter.
    rewrite Is_true_true, andb_true_iff. tauto.
Qed.

(** X4. Commits, undos and redos from a fresh history keep the cursor a
    valid index, or -1 exactly on the empty history; a confirmed reset and
    a local file upload lead back to the empty history with cursor -1. *)
Theorem history_cursor_invariant (st : State) :
  reachable st ->
  cursor_ok st
  /\ (forall s, redo (addToHistory s st) = addToHistory s st)
  /\ fresh (handleReset true st)
  /\ (forall f u, fresh (handleFileUpload f u st)).
Proof.
  intros H. split; [apply reachable_cursor_ok, H|].
  split; [intros s; apply redo_at_end, addToHistory_index|].
  split; [split; reflexivity|]. intros f u. split; reflexivity.
Qed.

Lemma history_cursor_invariant_witness :
  let st := run [Commit S0; Commit S1; StepUndo; StepRedo; StepUndo] initial in
  historyIndex st = 0 /\ cursor_ok st.
Proof.
  split; [reflexivity|].
  apply history_cursor_invariant.
  exists initial, [Commit S0; Commit S1; StepUndo; StepRedo; StepUndo].
  split; [split|]; reflexivity.
Defined.

(** X5. A cue whose id the translation response omits keeps its text, id
    and times; its [originalText] is kept when it already holds a non-empty
    string and is set to the current text when it is absent. *)
Theorem translation_missing_id (translations : list Translation)
    (subs : list Subtitle) (i : nat) (c : Subtitle) :
  nth_error subs i = Some c ->
  (forall t, In t translations -> Translate.id t <> Cues.id c) ->
  exists c', nth_error (applyTranslations translations subs) i = Some c'
    /\ Cues.id c' = Cues.id c /\ text c' = text c
    /\ startTime c' = startTime c /\ endTime c' = endTime c
    /\ (forall o, originalText c = Some o -> o <> "" -> originalText c' = Some o)
    /\ (originalText c = None -> originalText c' = Some (text c)).
Proof.
  intros H Hmiss.
  destruct (applyTranslations_cue translations subs i c H)
    as (c' & H1 & H2 & H3 & H4 & H5 & H6 & H7).
  exists c'. repeat split; auto.
Qed.

Lemma translation_missing_id_witness :
  exists c',
    nth_error (applyTranslations [mkTranslation "a" "Hola"] cuesA) 1 = Some c'
    /\ Cues.id c' = "b" /\ text c' = "There".
Proof.
  destruct (translation_missing_id [mkTranslation "a" "Hola"] cuesA 1
              (cue "b" 2 5 "There") eq_refl) as (c' & H1 & H2 & H3 & _).
  - intros t [<-|[]]. discriminate.
  - exists c'. auto.
Defined.

(* --------------------------------------------------------------------- *)
(** ** Undo, redo and the committing edits *)
(* --------------------------------------------------------------------- *)

Import Editor.

Lemma index_nonneg {A} (l : list A) (i : Z) :
  0 <= i -> JS.index l i = nth_error l (Z.to_nat i).
Proof.
  intros H. unfold JS.index.
  replace (i <? 0) with false; [reflexivity|]. symmetry. apply Z.ltb_ge. exact H.
Qed.

Lemma undo_when_positive st :
  0 < historyIndex st ->
  undo st = setSubtitles (JS.index (history st) (historyIndex st - 1))
              (setHistoryIndex (historyIndex st - 1) st).
Proof.
  intros H. unfold undo.
  replace (0 <? historyIndex st) with true; [reflexivity|].
  symmetry. apply Z.ltb_lt. exact H.
Qed.

Lemma redo_when_behind st :
  historyIndex st < Z.of_nat (List.length (history st)) - 1 ->
  redo st = setSubtitles (JS.index (history st) (historyIndex st + 1))
              (setHistoryIndex (historyIndex st + 1) st).
Proof.
  intros H. unfold redo.
  replace (historyIndex st <? Z.of_nat (List.length (history st)) - 1) with true;
    [reflexivity|].
  symmetry. apply Z.ltb_lt. exact H.
Qed.

(** X6. With a valid cursor, [undo] followed by [redo] (and [redo] followed
    by [undo]) comes back to the same cursor and the same history, and
    shows the snapshot under that cursor: edits that were not committed are
    the only thing lost. *)
Theorem undo_redo_inverse (st : State) :
  cursor_ok st ->
  (0 < historyIndex st ->
   historyIndex (redo (undo st)) = historyIndex st
   /\ history (redo (undo st)) = history st
   /\ subtitles (redo (undo st))
      = nth_error (history st) (Z.to_nat (historyIndex st)))
  /\ (historyIndex st < Z.of_nat (List.length (history st)) - 1 ->
      historyIndex (undo (redo st)) = historyIndex st
      /\ history (undo (redo st)) = history st
      /\ subtitles (undo (redo st))
         = nth_error (history st) (Z.to_nat (historyIndex st))).
Proof.
  intros Hok. split; intros H.
  - assert (Hlen : historyIndex st < Z.of_nat (List.length (history st)))
      by (destruct Hok as [[_ Hc]|Hc]; lia).
    rewrite (undo_when_positive st H).
    rewrite redo_when_behind by (cbn; lia). cbn.
    replace (historyIndex st - 1 + 1) with (historyIndex st) by lia.
    split; [reflexivity|]. split; [reflexivity|]. apply index_nonneg. lia.
  - assert (Hpos : 0 <= historyIndex st).
    { destruct Hok as [[Hh Hc]|Hc]; [|lia]. rewrite Hh, Hc in H. cbn in H. lia. }
    rewrite (redo_when_behind st H).
    rewrite undo_when_positive by (cbn; lia). cbn.
    replace (historyIndex st + 1 - 1) with (historyIndex st) by lia.
    split; [reflexivity|]. split; [reflexivity|]. apply index_nonneg. exact Hpos.
Qed.

Lemma undo_redo_inverse_witness :
  let st := run [Commit S0; Commit S1; Commit S2; StepUndo] initial in
  historyIndex st = 1
  /\ subtitles (redo (undo st)) = Some S1
  /\ subtitles (undo (redo st)) = Some S1.
Proof.
  intros st.
  assert (Hok : cursor_ok st)
    by (right; vm_compute; split; [discriminate|reflexivity]).
  destruct (undo_redo_inverse st Hok) as [H1 H2].
  split; [reflexivity|]. split.
  - exact (proj2 (proj2 (H1 eq_refl))).
  - exact (proj2 (proj2 (H2 eq_refl))).
Defined.

Lemma nth_error_firstn_app_last {A} (l : list A) (n : nat) (x : A) :
  (n <= List.length l)%nat ->
  nth_error (firstn n l ++ [x]) n = Some x
  /\ forall i, (i < n)%nat -> nth_error (firstn n l ++ [x]) i = nth_error l i.
Proof.
  intros H. split.
  - rewrite nth_error_app2 by (rewrite length_firstn; lia).
    rewrite length_firstn. replace (n - Init.Nat.min n (List.length l))%nat with 0%nat by lia.
    reflexivity.
  - intros i Hi. rewrite nth_error_app1 by (rewrite length_firstn; lia).
    rewrite nth_error_firstn.
    replace (i <? n)%nat with true; [reflexivity|].
    symmetry. apply Nat.ltb_lt. exact Hi.
Qed.

(** A commit is undoable: [undo] shows the snapshot the cursor pointed at
    before the commit, and [redo] then shows the committed cues again. *)
Lemma commit_then_undo st st' s :
  cursor_ok st -> 0 <= historyIndex st ->
  history st' = history st -> historyIndex st' = historyIndex st ->
  subtitles (undo (addToHistory s st'))
  = nth_error (history st) (Z.to_nat (historyIndex st))
  /\ subtitles (redo (undo (addToHistory s st'))) = Some s.
Proof.
  intros Hok Hpos Hh Hi.
  assert (Hlen : historyIndex st < Z.of_nat (List.length (history st)))
    by (destruct Hok as [[_ Hc]|Hc]; lia).
  pose proof (addToHistory_history s st') as HH.
  pose proof (addToHistory_index s st') as HI.
  rewrite Hh, Hi, slice_prefix in HH by lia.
  rewrite HH, length_app, length_firstn in HI. cbn in HI.
  destruct (nth_error_firstn_app_last (history st) (Z.to_nat (historyIndex st + 1)) s)
    as [Hlast Hpre]; [lia|].
  assert (Hu : undo (addToHistory s st')
               = setSubtitles (JS.index (history (addToHistory s st'))
                                 (historyIndex (addToHistory s st') - 1))
                   (setHistoryIndex (historyIndex (addToHistory s st') - 1)
                      (addToHistory s st')))
    by (apply undo_when_positive; lia).
  split.
  - rewrite Hu. cbn. rewrite index_nonneg by lia. rewrite HH.
    rewrite Hpre by lia. f_equal. lia.
  - rewrite Hu. rewrite redo_when_behind by (cbn; rewrite HH, length_app, length_firstn; cbn; lia).
    cbn. rewrite index_nonneg by lia. rewrite HH.
    replace (Z.to_nat (historyIndex (addToHistory s st') - 1 + 1))
      with (Z.to_nat (historyIndex st + 1)) by lia.
    exact Hlast.
Qed.

Lemma filter_unchanged {A} (p : A -> bool) (l : list A) :
  (forall x, In x l -> p x = true) -> filter p l = l.
Proof.
  induction l as [|x l IH]; intros H; [reflexivity|].
  cbn. rewrite (H x) by (left; reflexivity). f_equal.
  apply IH. intros y Hy. apply H. right. exact Hy.
Qed.

(** X7. [onDeleteSubtitle(id)] keeps exactly the cues with another id, in
    their order, and commits the result even when no cue has that id (the
    history grows by a snapshot equal to the cues). With a valid cursor the
    deletion is undoable: [undo] shows the snapshot under the old cursor and
    [redo] the cues after the deletion. *)
Theorem delete_commits_and_is_undoable (id : string) (st : State) (subs : list Subtitle) :
  subtitles st = Some subs ->
  let newSubs := filter (fun s => negb (String.eqb (Cues.id s) id)) subs in
  subtitles (onDeleteSubtitle id st) = Some newSubs
  /\ (forall c, In c newSubs <-> In c subs /\ Cues.id c <> id)
  /\ sublist newSubs subs
  /\ ((forall c, In c subs -> Cues.id c <> id) ->
      newSubs = subs
      /\ history (onDeleteSubtitle id st)
         = slice (history st) 0 (historyIndex st + 1) ++ [subs])
  /\ (cursor_ok st -> 0 <= historyIndex st ->
      subtitles (undo (onDeleteSubtitle id st))
      = nth_error (history st) (Z.to_nat (historyIndex st))
      /\ subtitles (redo (undo (onDeleteSubtitle id st))) = Some newSubs).
Proof.
  intros Hs newSubs. unfold onDeleteSubtitle. rewrite Hs. fold newSubs.
  split; [unfold addToHistory; destruct (currentUser _); reflexivity|].
  split.
  { intros c. unfold newSubs. rewrite <- !list_elem_of_In, list_elem_of_filter.
    rewrite Is_true_true, negb_true_iff.
    destruct (String.eqb_spec (Cues.id c) id); split; intros [H1 H2];
      split; auto; congruence. }
  split; [apply sublist_filter|].
  split.
  - intros Habs.
    assert (E : newSubs = subs).
    { apply filter_unchanged. intros x Hx. apply negb_true_iff.
      destruct (String.eqb_spec (Cues.id x) id); [exfalso; exact (Habs x Hx e)|reflexivity]. }
    split; [exact E|]. rewrite addToHistory_history, E. reflexivity.
  - intros Hok Hpos.
    apply (commit_then_undo st (setSubtitles (Some newSubs) st) newSubs Hok Hpos);
      reflexivity.
Qed.

Lemma delete_commits_and_is_undoable_witness :
  let st := addToHistory cuesA (withSubtitles cuesA) in
  subtitles (onDeleteSubtitle "a" st) = Some [cue "b" 2 5 "There"]
  /\ subtitles (undo (onDeleteSubtitle "a" st)) = Some cuesA.
Proof.
  intros st.
  destruct (delete_commits_and_is_undoable "a" st cuesA eq_refl)
    as (H1 & _ & _ & _ & H5).
  split; [exact H1|].
  exact (proj1 (H5 (or_intror (conj (Z.le_refl 0) eq_refl)) (Z.le_refl 0))).
Defined.





(** A restored project starts a history of one snapshot with the
    cursor on it: [undo] and [redo] change nothing, and the first commit
    after it can be undone back to the restored cues. Without stored data
    the state is left as it is. *)
Theorem restored_project_history (subs : list Subtitle) (name : option string)
    (st : State) :
  let st' := loadUserProject (Some (subs, name)) st in
  subtitles st' = Some subs
  /\ history st' = [subs] /\ historyIndex st' = 0
  /\ cursor_ok st'
  /\ undo st' = st' /\ redo st' = st'
  /\ (forall s, subtitles (undo (addToHistory s st')) = Some subs)
  /\ mediaName st' = or_else name "Untitled Project"
  /\ loadUserProject None st = st.
Proof.
  cbv zeta. repeat (split; [reflexivity|]).
  split; [right; cbn; lia|].
  repeat (split; [reflexivity|]).
  split; [|split; reflexivity].
  intros s. unfold addToHistory. cbn. destruct (currentUser st); reflexivity.
Qed.



(* --------------------------------------------------------------------- *)
(** ** Export file name *)
(* --------------------------------------------------------------------- *)

Lemma all_units_app p a b :
  all_units p (a ++ b)%string = all_units p a && all_units p b.
Proof.
  induction a as [|c a IH]; [reflexivity|].
  change (p c && all_units p (a ++ b)%string = p c && all_units p a && all_units p b).
  rewrite IH. apply andb_assoc.
Qed.

Lemma stripExtension_stem stem rest :
  all_units in_extension rest = false ->
  stripExtension (stem ++ rest)%string = (stem ++ stripExtension rest)%string.
Proof.
  intros Hrest. induction stem as [|c stem IH]; [reflexivity|].
  change (stripExtension (String c (stem ++ rest))
          = String c (stem ++ stripExtension rest)).
  cbn [stripExtension]. rewrite all_units_app, Hrest, andb_false_r, andb_false_r.
  f_equal. exact IH.
Qed.

Lemma stripExtension_no_dot name :
  all_units (fun c => negb (code c =? 46)) name = true -> stripExtension name = name.
Proof.
  induction name as [|c name IH]; [reflexivity|].
  cbn. intros H. apply andb_true_iff in H. destruct H as [Hc Hn].
  apply negb_true_iff in Hc. rewrite Hc. cbn. f_equal. apply IH, Hn.
Qed.

(** X12. The download name drops the last extension of the media name and
    appends [_subs.] and the format: for [stem.ext], where [ext] is not
    empty and holds neither ['.'] nor ['/'], it is [stem_subs.format],
    whatever dots [stem] holds; a media name without any dot is kept
    whole. *)
Theorem export_filename (stem ext format : string) :
  ext <> EmptyString -> all_units in_extension ext = true ->
  exportFilename (stem ++ "." ++ ext) format = (stem ++ "_subs." ++ format)%string
  /\ (all_units (fun c => negb (code c =? 46)) stem = true ->
      exportFilename stem format = (stem ++ "_subs." ++ format)%string).
Proof.
  intros Hne Hext. unfold exportFilename. split.
  - rewrite stripExtension_stem by reflexivity.
    assert (E : stripExtension ("." ++ ext)%string = EmptyString).
    { change ("." ++ ext)%string with (String "." ext). cbn [stripExtension].
      change (code "." =? 46) with true. rewrite Hext.
      destruct ext as [|c ext]; [contradiction|]. reflexivity. }
    rewrite E, append_assoc. reflexivity.
  - intros H. rewrite stripExtension_no_dot by exact H. reflexivity.
Qed.

Lemma export_filename_witness :
  exportFilename "Project_Flower.Edit_v2.mp4" "srt" = "Project_Flower.Edit_v2_subs.srt".
Proof.
  refine (proj1 (export_filename "Project_Flower.Edit_v2" "mp4" "srt" _ eq_refl)).
  discriminate.
Defined.

(* --------------------------------------------------------------------- *)
(** ** Chunks: trimmed, never blank, and nothing lost *)
(* --------------------------------------------------------------------- *)

Import Readers.

Lemma trimStart_head s :
  trimStart s = EmptyString
  \/ exists c t, trimStart s = String c t /\ is_white_space c = false.
Proof.
  induction s as [|c s IH]; [left; reflexivity|].
  cbn. destruct (is_white_space c) eqn:E; [exact IH|].
  right. exists c, s. split; [reflexivity|exact E].
Qed.

Lemma trimEnd_head c s :
  is_white_space c = false -> exists t, trimEnd (String c s) = String c t.
Proof.
  intros E. cbn. rewrite E. destruct (trimEnd s); eexists; reflexivity.
Qed.

Lemma trimEnd_idem s : trimEnd (trimEnd s) = trimEnd s.
Proof.
  induction s as [|c s IH]; [reflexivity|].
  cbn. destruct (trimEnd s) as [|d t] eqn:E.
  - destruct (is_white_space c) eqn:Ec; [reflexivity|]. cbn. rewrite Ec. reflexivity.
  - cbn [trimEnd] in IH |- *. cbn. cbn in IH. rewrite IH. reflexivity.
Qed.

Lemma trim_idem s : trim (trim s) = trim s.
Proof.
  unfold trim. destruct (trimStart_head s) as [->|(c & t & -> & Hc)]; [reflexivity|].
  destruct (trimEnd_head c t Hc) as [u Hu]. rewrite Hu.
  cbn [trimStart]. rewrite Hc, <- Hu. apply trimEnd_idem.
Qed.

Lemma pushTrimmed_trimmed chunks cur :
  (forall c, In c chunks -> c <> EmptyString /\ trim c = c) ->
  forall c, In c (pushTrimmed chunks cur) -> c <> EmptyString /\ trim c = c.
Proof.
  intros H c. unfold pushTrimmed, truthy.
  destruct (String.eqb_spec (trim cur) ""); cbn; [apply H|].
  rewrite in_app_iff. intros [Hc|[<-|[]]]; [apply H, Hc|].
  split; [exact n|apply trim_idem].
Qed.

Lemma packSentences_trimmed maxChunkSize sentences :
  forall chunks cur,
    (forall c, In c chunks -> c <> EmptyString /\ trim c = c) ->
    forall c, In c (packSentences maxChunkSize sentences chunks cur) ->
              c <> EmptyString /\ trim c = c.
Proof.
  induction sentences as [|s rest IH]; intros chunks cur H; cbn.
  - apply pushTrimmed_trimmed, H.
  - destruct (maxChunkSize <? _); apply IH; [apply pushTrimmed_trimmed|]; exact H.
Qed.

(** X13. No chunk handed to the speech capability is empty, and none
    starts or ends with white space: every chunk is its own [trim]. *)
Theorem chunks_are_trimmed (text : string) (maxChunkSize : Z) (chunk : string) :
  In chunk (splitTextIntoChunks text maxChunkSize) ->
  chunk <> EmptyString /\ trim chunk = chunk.
Proof.
  apply packSentences_trimmed. intros c [].
Qed.

Lemma chunks_are_trimmed_witness :
  "How are you?" <> EmptyString /\ trim "How are you?" = "How are you?".
Proof.
  apply (chunks_are_trimmed "Hello world. How are you? Fine!! ok" 10).
  vm_compute. right. left. reflexivity.
Defined.

Lemma append_empty s : (s ++ "")%string = s.
Proof.
  induction s as [|c s IH]; [reflexivity|].
  change (String c (s ++ "")%string = String c s). f_equal. exact IH.
Qed.

Lemma white_space_not_terminator c :
  is_white_space c = true -> is_terminator c = false.
Proof.
  unfold is_white_space, is_terminator. intros H.
  destruct (code c =? 46) eqn:E1; [apply Z.eqb_eq in E1; rewrite E1 in H; discriminate H|].
  destruct (code c =? 33) eqn:E2; [apply Z.eqb_eq in E2; rewrite E2 in H; discriminate H|].
  destruct (code c =? 63) eqn:E3; [apply Z.eqb_eq in E3; rewrite E3 in H; discriminate H|].
  reflexivity.
Qed.

Lemma trimStart_blank s : all_units is_white_space s = true -> trimStart s = EmptyString.
Proof.
  induction s as [|c s IH]; [reflexivity|].
  cbn. intros H. apply andb_true_iff in H. destruct H as [Hc Hs].
  rewrite Hc. apply IH, Hs.
Qed.

Lemma trim_blank s : all_units is_white_space s = true -> trim s = EmptyString.
Proof. intros H. unfold trim. rewrite trimStart_blank by exact H. reflexivity. Qed.

Lemma matchSentences_blank s :
  all_units is_white_space s = true ->
  forall cur, matchSentences cur false s
              = match (cur ++ s)%string with EmptyString => [] | t => [t] end.
Proof.
  induction s as [|c s IH]; intros H cur.
  - rewrite append_empty. destruct cur; reflexivity.
  - cbn in H. apply andb_true_iff in H. destruct H as [Hc Hs].
    cbn [matchSentences]. rewrite (white_space_not_terminator c Hc).
    rewrite (IH Hs). unfold push_unit. rewrite append_assoc. reflexivity.
Qed.

Lemma sentencesOf_blank s : all_units is_white_space s = true -> sentencesOf s = [s].
Proof.
  intros H. unfold sentencesOf. rewrite (matchSentences_blank s H).
  destruct s; reflexivity.
Qed.

(** X14. A text made of white space only (the empty text included) gives
    no chunk at all; the pipeline then makes no call, reports 100 when it
    has a callback, and rejects with the generic error. *)
Theorem blank_text_is_not_synthesized (text : string) :
  all_units is_white_space text = true ->
  splitTextIntoChunks text 300 = []
  /\ forall tts onProgress,
       generateDubbedAudio tts onProgress text = (Threw dubFailed, report onProgress 100).
Proof.
  intros H.
  assert (E : splitTextIntoChunks text 300 = []).
  { unfold splitTextIntoChunks. rewrite (sentencesOf_blank text H).
    cbn [packSentences]. change (EmptyString ++ text)%string with text.
    destruct (300 <? len text).
    - unfold pushTrimmed at 2. cbn [trim trimStart trimEnd truthy String.eqb negb].
      unfold pushTrimmed. rewrite (trim_blank text H). reflexivity.
    - unfold pushTrimmed. rewrite trim_blank; [reflexivity|].
      change (EmptyString ++ " " ++ text)%string with (String " " text).
      cbn [all_units]. rewrite H. reflexivity. }
  split; [exact E|]. intros tts onProgress.
  unfold generateDubbedAudio, generateDubbedAudio_try. rewrite E. reflexivity.
Qed.

Lemma blank_text_is_not_synthesized_witness :
  generateDubbedAudio ttsSpeaking true "   " = (Threw dubFailed, [Progress 100]).
Proof.
  exact (proj2 (blank_text_is_not_synthesized "   " eq_refl) ttsSpeaking true).
Defined.

Lemma squash_app a b : squash (a ++ b)%string = (squash a ++ squash b)%string.
Proof.
  induction a as [|c a IH]; [reflexivity|].
  change (squash (String c (a ++ b)) = (squash (String c a) ++ squash b)%string).
  cbn [squash]. destruct (is_white_space c); [exact IH|].
  change (String c (squash (a ++ b)%string) = String c (squash a ++ squash b)%string).
  f_equal. exact IH.
Qed.

Lemma squash_trimStart s : squash (trimStart s) = squash s.
Proof.
  induction s as [|c s IH]; [reflexivity|].
  cbn. destruct (is_white_space c) eqn:E; [exact IH|]. cbn. rewrite E. reflexivity.
Qed.

Lemma squash_trimEnd s : squash (trimEnd s) = squash s.
Proof.
  induction s as [|c s IH]; [reflexivity|].
  cbn. destruct (trimEnd s) as [|d t] eqn:E.
  - cbn in IH. destruct (is_white_space c) eqn:Ec; [exact IH|].
    cbn. rewrite Ec. f_equal. exact IH.
  - cbn [squash] in *. destruct (is_white_space c); [exact IH|]. f_equal. exact IH.
Qed.

Lemma squash_trim s : squash (trim s) = squash s.
Proof. unfold trim. rewrite squash_trimEnd. apply squash_trimStart. Qed.

Lemma joined_app a b : joined (a ++ b) = (joined a ++ joined b)%string.
Proof.
  induction a as [|s a IH]; [reflexivity|].
  cbn. rewrite IH, append_assoc. reflexivity.
Qed.

Lemma squash_pushTrimmed chunks cur :
  squash (joined (pushTrimmed chunks cur))
  = (squash (joined chunks) ++ squash cur)%string.
Proof.
  unfold pushTrimmed, truthy. destruct (String.eqb_spec (trim cur) ""); cbn.
  - rewrite <- (squash_trim cur), e. cbn. rewrite append_empty. reflexivity.
  - rewrite joined_app, squash_app. cbn. rewrite append_empty, squash_trim. reflexivity.
Qed.

Lemma squash_packSentences maxChunkSize sentences :
  forall chunks cur,
    squash (joined (packSentences maxChunkSize sentences chunks cur))
    = (squash (joined chunks) ++ squash cur ++ squash (joined sentences))%string.
Proof.
  induction sentences as [|s rest IH]; intros chunks cur; cbn [packSentences joined].
  - rewrite squash_pushTrimmed. cbn. rewrite append_empty. reflexivity.
  - destruct (maxChunkSize <? _); rewrite IH.
    + rewrite squash_pushTrimmed, squash_app, !append_assoc. reflexivity.
    + rewrite !squash_app. change (squash " ") with EmptyString.
      cbn [append]. rewrite !append_assoc. reflexivity.
Qed.

(** X15. Chunking loses and reorders nothing but white space: the chunks,
    put end to end and stripped of white space, are the sentences put end
    to end and stripped of white space, for every size limit; for a text
    that holds a character other than ['.'], ['!'], ['?'] this is the text
    without the terminators it starts with, stripped of white space. *)
Theorem chunks_keep_content (text : string) (maxChunkSize : Z) :
  squash (joined (splitTextIntoChunks text maxChunkSize))
  = squash (joined (sentencesOf text))
  /\ (dropTerminators text <> EmptyString ->
      squash (joined (splitTextIntoChunks text maxChunkSize))
      = squash (dropTerminators text)).
Proof.
  assert (E : squash (joined (splitTextIntoChunks text maxChunkSize))
              = squash (joined (sentencesOf text))).
  { unfold splitTextIntoChunks. rewrite squash_packSentences. reflexivity. }
  split; [exact E|]. intros H. rewrite E. unfold sentencesOf.
  pose proof (matchSentences_joined text EmptyString false) as Hj. cbn in Hj.
  destruct (matchSentences EmptyString false text) as [|x l]; [|rewrite Hj; reflexivity].
  cbn in Hj. congruence.
Qed.

(* --------------------------------------------------------------------- *)
(** ** WAV header layout *)
(* --------------------------------------------------------------------- *)

Lemma le16_value (n : Z) :
  n mod 256 + 256 * ((n / 256) mod 256) = n mod 65536.
Proof.
  change 65536 with (256 * 256). rewrite Z.rem_mul_r by lia. reflexivity.
Qed.

(** X16. The header reads back as the canonical 44-byte PCM header: the
    tags [RIFF], [WAVE], [fmt ] and [data] at offsets 0, 8, 12 and 36, a
    16-byte format block for PCM, one channel, 16 bits per sample and
    2-byte frames; and, when they fit in 32 bits, the sample rate, the byte
    rate (twice the sample rate), the data length, and a RIFF size that is
    the data length plus 36. *)
Theorem wav_header_layout (dataLength sampleRate : Z) :
  0 <= dataLength -> dataLength + 36 < 4294967296 ->
  0 <= sampleRate -> sampleRate * 2 < 4294967296 ->
  let h := createWavHeader dataLength sampleRate in
  List.length h = 44%nat
  /\ bytesAt h 0 4 = writeString "RIFF"
  /\ getUint32 h 4 = dataLength + 36
  /\ bytesAt h 8 8 = writeString "WAVEfmt "
  /\ getUint32 h 16 = 16
  /\ getUint16 h 20 = 1
  /\ getUint16 h 22 = 1
  /\ getUint32 h 24 = sampleRate
  /\ getUint32 h 28 = sampleRate * 2
  /\ getUint16 h 32 = 2
  /\ getUint16 h 34 = 16
  /\ bytesAt h 36 4 = writeString "data"
  /\ getUint32 h 40 = dataLength.
Proof.
  intros H1 H2 H3 H4 h. subst h.
  repeat split; try reflexivity;
    unfold getUint32, getUint16, createWavHeader;
    cbn [writeString list_ascii_of_string map List.app setUint32 setUint16 skipn];
    rewrite !byte_val_u8;
    try (rewrite le32_value, Z.mod_small by lia; lia);
    try (rewrite le16_value; reflexivity).
Qed.

Lemma wav_header_layout_witness :
  let h := createWavHeader 96000 24000 in
  getUint32 h 4 = 96036 /\ getUint32 h 24 = 24000 /\ getUint32 h 28 = 48000
  /\ getUint32 h 40 = 96000.
Proof.
  destruct (wav_header_layout 96000 24000) as (_ & _ & H4 & _ & _ & _ & _ & H24 & H28 & _ & _ & _ & H40);
    try lia.
  repeat split; assumption.
Defined.

(* --------------------------------------------------------------------- *)
(** ** Response cleaning ([cleanJson]) *)
(* --------------------------------------------------------------------- *)

Lemma prefix_cons a p b s :
  String.prefix (String a p) (String b s)
  = if ascii_dec a b then String.prefix p s else false.
Proof. cbn [String.prefix]. destruct (ascii_dec a b); reflexivity. Qed.

Lemma prefix_backtick_false pat c s :
  (code c =? 96) = false -> String.prefix (String "`" pat) (String c s) = false.
Proof.
  intros H. rewrite prefix_cons.
  destruct (ascii_dec "`" c) as [<-|_]; [discriminate H|reflexivity].
Qed.

Lemma removeAll_plain pat body rest :
  no_backtick body = true ->
  Gemini.removeAllFrom (String "`" pat) 0 (body ++ rest)
  = (body ++ Gemini.removeAllFrom (String "`" pat) 0 rest)%string.
Proof.
  induction body as [|c body IH]; intros H; [reflexivity|].
  cbn in H. apply andb_true_iff in H. destruct H as [Hc Hb].
  apply negb_true_iff in Hc.
  change (String c body ++ rest)%string with (String c (body ++ rest)).
  cbn [Gemini.removeAllFrom]. rewrite (prefix_backtick_false pat c _ Hc).
  rewrite (IH Hb). reflexivity.
Qed.

Lemma removeAll_at_fence s :
  Gemini.removeAllFrom Gemini.fence 0 (Gemini.fence ++ s)
  = Gemini.removeAllFrom Gemini.fence 0 s.
Proof.
  unfold Gemini.fence.
  change (String "`" (String "`" (String "`" EmptyString)) ++ s)%string
    with (String "`" (String "`" (String "`" s))).
  cbn [Gemini.removeAllFrom].
  rewrite !prefix_cons. destruct (ascii_dec "`" "`") as [_|F]; [|contradiction].
  destruct s; reflexivity.
Qed.

Lemma removeAll_at_json_fence s :
  Gemini.removeAllFrom (Gemini.fence ++ "json") 0 (Gemini.fence ++ "json" ++ s)
  = Gemini.removeAllFrom (Gemini.fence ++ "json") 0 s.
Proof.
  unfold Gemini.fence.
  change ((String "`" (String "`" (String "`" EmptyString)) ++ "json"))%string
    with (String "`" (String "`" (String "`" (String "j" (String "s" (String "o" (String "n" EmptyString))))))).
  change (String "`" (String "`" (String "`" EmptyString)) ++ "json" ++ s)%string
    with (String "`" (String "`" (String "`" (String "j" (String "s" (String "o" (String "n" s))))))).
  cbn [Gemini.removeAllFrom].
  rewrite !prefix_cons.
  destruct (ascii_dec "`" "`") as [_|F]; [|contradiction].
  destruct (ascii_dec "j" "j") as [_|F]; [|contradiction].
  destruct (ascii_dec "s" "s") as [_|F]; [|contradiction].
  destruct (ascii_dec "o" "o") as [_|F]; [|contradiction].
  destruct (ascii_dec "n" "n") as [_|F]; [|contradiction].
  destruct s; reflexivity.
Qed.

Lemma fence_survives_json_pass :
  Gemini.removeAllFrom (Gemini.fence ++ "json") 0 Gemini.fence = Gemini.fence.
Proof. vm_compute. reflexivity. Qed.

(** X17. [cleanJson] unwraps a fenced answer: for a body without
    backticks, the body alone and the body between [```json] and [```]
    both clean to the trimmed body. *)
Theorem cleanJson_unwraps (body : string) :
  no_backtick body = true ->
  Gemini.cleanJson body = trim body
  /\ Gemini.cleanJson (Gemini.fence ++ "json" ++ body ++ Gemini.fence) = trim body.
Proof.
  intros H.
  assert (P1 : forall pat, Gemini.removeAll (String "`" pat) body = body).
  { intros pat. unfold Gemini.removeAll.
    rewrite <- (append_empty body) at 1. rewrite removeAll_plain by exact H.
    cbn [Gemini.removeAllFrom]. apply append_empty. }
  assert (P2 : Gemini.removeAll Gemini.fence (body ++ Gemini.fence) = body).
  { unfold Gemini.removeAll. unfold Gemini.fence at 1.
    rewrite removeAll_plain by exact H.
    change (String "`" (String "`" (String "`" EmptyString))) with Gemini.fence.
    rewrite <- (append_empty Gemini.fence) at 2.
    rewrite removeAll_at_fence. cbn [Gemini.removeAllFrom]. apply append_empty. }
  unfold Gemini.cleanJson. split.
  - change (Gemini.fence ++ "json")%string
      with (String "`" (String "`" (String "`" "json"))).
    rewrite P1. unfold Gemini.fence. rewrite P1. reflexivity.
  - unfold Gemini.removeAll at 2. rewrite removeAll_at_json_fence.
    change (Gemini.fence ++ "json")%string
      with (String "`" (String "`" (String "`" "json"))).
    rewrite removeAll_plain by exact H.
    change (String "`" (String "`" (String "`" "json")))
      with (Gemini.fence ++ "json")%string.
    rewrite fence_survives_json_pass, P2. reflexivity.
Qed.

Lemma cleanJson_unwraps_witness :
  Gemini.cleanJson (Gemini.fence ++ "json" ++ " [1, 2] " ++ Gemini.fence) = "[1, 2]".
Proof.
  exact (proj2 (cleanJson_unwraps " [1, 2] " eq_refl)).
Defined.

(* --------------------------------------------------------------------- *)
(** ** Transcription result: fresh cue ids *)
(* --------------------------------------------------------------------- *)

Lemma string_of_uint_digits d : all_digits (NilEmpty.string_of_uint d) = true.
Proof.
  unfold all_digits.
  induction d; cbn [NilEmpty.string_of_uint all_units]; try rewrite IHd; reflexivity.
Qed.

Lemma digits_inj n m : Gemini.digits n = Gemini.digits m -> n = m.
Proof.
  intros H. apply DecimalNat.Unsigned.to_uint_inj.
  assert (E : NilEmpty.uint_of_string (Gemini.digits n)
              = NilEmpty.uint_of_string (Gemini.digits m)) by (rewrite H; reflexivity).
  unfold Gemini.digits in E. rewrite !NilEmpty.usu in E.
  injection E as E. exact E.
Qed.

(** Two strings of digits followed by a dash and anything agree on the
    digits when they agree as a whole. *)
Lemma digits_before_dash a :
  forall b x y,
    all_digits a = true -> all_digits b = true ->
    (a ++ String "-" x)%string = (b ++ String "-" y)%string -> a = b.
Proof.
  unfold all_digits.
  induction a as [|c a IH]; intros [|d b] x y Ha Hb E.
  - reflexivity.
  - change (String "-" x = String d (b ++ String "-" y)%string) in E.
    injection E as <- _. discriminate Hb.
  - change (String c (a ++ String "-" x)%string = String "-" y) in E.
    injection E as -> _. discriminate Ha.
  - change (String c (a ++ String "-" x)%string = String d (b ++ String "-" y)%string) in E.
    injection E as -> E. f_equal.
    cbn [all_units] in Ha, Hb.
    apply andb_true_iff in Ha. apply andb_true_iff in Hb.
    apply (IH b x y); [apply Ha|apply Hb|exact E].
Qed.

Lemma autoId_inj i j t u : autoId i t = autoId j u -> i = j.
Proof.
  unfold autoId. intros E.
  change ("auto-" ++ Gemini.digits i ++ "-" ++ Backend.decimal t)%string
    with (String "a" (String "u" (String "t" (String "o" (String "-"
           (Gemini.digits i ++ String "-" (Backend.decimal t))%string))))) in E.
  change ("auto-" ++ Gemini.digits j ++ "-" ++ Backend.decimal u)%string
    with (String "a" (String "u" (String "t" (String "o" (String "-"
           (Gemini.digits j ++ String "-" (Backend.decimal u))%string))))) in E.
  injection E as E. apply digits_inj.
  apply (digits_before_dash _ _ _ _ (string_of_uint_digits _) (string_of_uint_digits _) E).
Qed.

Section Ids.
Variable parseTime : string -> option number.
Variable now : nat -> Z.

Lemma toSubtitles_ids items :
  forall index cues,
    Gemini.toSubtitles parseTime now index items = Some cues ->
    List.length cues = List.length items
    /\ map text cues = map Gemini.raw_text items
    /\ forall c, In c cues ->
         exists i, (index <= i)%nat /\ Cues.id c = autoId i (now i).
Proof using Type.
  induction items as [|item rest IH]; intros index cues H.
  - injection H as <-. repeat split. intros c [].
  - cbn [Gemini.toSubtitles] in H.
    destruct (parseTime (Gemini.raw_startTime item)) as [s|]; [|discriminate H].
    destruct (parseTime (Gemini.raw_endTime item)) as [e|]; [|discriminate H].
    destruct (Gemini.toSubtitles parseTime now (S index) rest) as [l|] eqn:El;
      [|discriminate H].
    injection H as <-. destruct (IH (S index) l El) as (Hlen & Htext & Hids).
    split; [cbn; rewrite Hlen; reflexivity|].
    split; [cbn; rewrite Htext; reflexivity|].
    intros c [<-|Hc].
    + exists index. split; [lia|reflexivity].
    + destruct (Hids c Hc) as (i & Hi & Hid). exists i. split; [lia|exact Hid].
Qed.

Lemma toSubtitles_NoDup items :
  forall index cues,
    Gemini.toSubtitles parseTime now index items = Some cues ->
    List.NoDup (map Cues.id cues).
Proof using Type.
  induction items as [|item rest IH]; intros index cues H.
  - injection H as <-. apply List.NoDup_nil.
  - cbn [Gemini.toSubtitles] in H.
    destruct (parseTime (Gemini.raw_startTime item)) as [s|]; [|discriminate H].
    destruct (parseTime (Gemini.raw_endTime item)) as [e|]; [|discriminate H].
    destruct (Gemini.toSubtitles parseTime now (S index) rest) as [l|] eqn:El;
      [|discriminate H].
    injection H as <-. cbn [map Cues.id]. apply List.NoDup_cons; [|apply (IH (S index) l El)].
    rewrite in_map_iff. intros (c & Hid & Hc).
    destruct (toSubtitles_ids rest (S index) l El) as (_ & _ & Hids).
    destruct (Hids c Hc) as (i & Hi & Hci).
    rewrite Hci in Hid. apply autoId_inj in Hid. lia.
Qed.

End Ids.

Lemma or_else_nonempty a : or_else a "Unknown" <> EmptyString.
Proof.
  unfold or_else, truthy. destruct a as [s|]; [|discriminate].
  destruct (String.eqb_spec s ""); cbn; [discriminate|assumption].
Qed.

Lemma toSubtitles_fields parseTime now items :
  forall index cues,
    Gemini.toSubtitles parseTime now index items = Some cues ->
    forall c, In c cues ->
      confidence c = Some 0.95%float /\ originalText c = None
      /\ exists sp, speaker c = Some sp /\ sp <> EmptyString.
Proof.
  induction items as [|item rest IH]; intros index cues H.
  - injection H as <-. intros c [].
  - cbn [Gemini.toSubtitles] in H.
    destruct (parseTime (Gemini.raw_startTime item)) as [s|]; [|discriminate H].
    destruct (parseTime (Gemini.raw_endTime item)) as [e|]; [|discriminate H].
    destruct (Gemini.toSubtitles parseTime now (S index) rest) as [l|] eqn:El;
      [|discriminate H].
    injection H as <-. intros c [<-|Hc]; [|apply (IH (S index) l El c Hc)].
    cbn. split; [reflexivity|]. split; [reflexivity|].
    eexists. split; [reflexivity|apply or_else_nonempty].
Qed.

(** X18. When the transcription resolves, the cues it returns carry
    pairwise distinct ids, whatever the timestamps read from the clock; there
    is one cue per entry of the response, with the entry's text, in order;
    every cue has confidence 0.95, no [originalText] and a non-empty
    speaker, and the detected language is not empty. *)
Theorem generated_cues (parseTime : string -> option number) (now : nat -> Z)
    (data : Gemini.RawResult) (r : Gemini.GenerationResult) :
  Gemini.generateSubtitlesFromMedia parseTime now (Some data) = Gemini.Resolved r ->
  List.NoDup (map Cues.id (Gemini.subtitles r))
  /\ map text (Gemini.subtitles r)
     = map Gemini.raw_text (match Gemini.raw_subtitles data with Some l => l | None => [] end)
  /\ (forall c, In c (Gemini.subtitles r) ->
        confidence c = Some 0.95%float /\ originalText c = None
        /\ exists sp, speaker c = Some sp /\ sp <> EmptyString)
  /\ Gemini.detectedLanguage r <> EmptyString.
Proof.
  unfold Gemini.generateSubtitlesFromMedia.
  set (items := match Gemini.raw_subtitles data with Some l => l | None => [] end).
  destruct (Gemini.toSubtitles parseTime now 0 items) as [subs|] eqn:E; [|discriminate].
  intros [= <-]. cbn [Gemini.subtitles Gemini.detectedLanguage].
  split; [apply (toSubtitles_NoDup parseTime now items 0 subs E)|].
  split; [apply (toSubtitles_ids parseTime now items 0 subs E)|].
  split; [apply (toSubtitles_fields parseTime now items 0 subs E)|].
  apply or_else_nonempty.
Qed.

Lemma generated_cues_witness :
  let parse := fun s : string => if String.eqb s "00:00:01,000" then Some 1%float else Some 2%float in
  let data := Gemini.mkRawResult
                (Some [Gemini.mkRaw "00:00:01,000" "00:00:02,000" None "Hi";
                       Gemini.mkRaw "00:00:02,000" "00:00:02,500" (Some "Ann") "There"])
                None in
  exists r,
    Gemini.generateSubtitlesFromMedia parse (fun _ => 1700000000000) (Some data)
    = Gemini.Resolved r
    /\ map Cues.id (Gemini.subtitles r) = ["auto-0-1700000000000"; "auto-1-1700000000000"]
    /\ List.NoDup (map Cues.id (Gemini.subtitles r)).
Proof.
  intros parse data. eexists. split; [reflexivity|]. split; [reflexivity|].
  refine (proj1 (generated_cues parse (fun _ => 1700000000000) data _ eq_refl)).
Defined.

(** X19. [handleGenerate] applies a transcription atomically. Without a
    chosen file the state is untouched; when the transcription fails (the
    request, the parsing or [parseTime] throws) the cues, the history and
    the cursor are as before and the status is [ERROR]; when it resolves,
    its cues replace the current ones and are committed as the snapshot
    after the cursor. *)
Theorem generate_is_atomic (parseTime : string -> option number) (now : nat -> Z)
    (response : option Gemini.RawResult) (st : State) :
  Gemini.handleGenerate parseTime now false response st = st
  /\ (forall m, Gemini.generateSubtitlesFromMedia parseTime now response = Gemini.Threw m ->
      let st' := Gemini.handleGenerate parseTime now true response st in
      App.subtitles st' = App.subtitles st /\ history st' = history st
      /\ historyIndex st' = historyIndex st /\ processingStatus st' = ERROR)
  /\ (forall r, Gemini.generateSubtitlesFromMedia parseTime now response = Gemini.Resolved r ->
      let st' := Gemini.handleGenerate parseTime now true response st in
      App.subtitles st' = Some (Gemini.subtitles r)
      /\ history st'
         = slice (history st) 0 (historyIndex st + 1) ++ [Gemini.subtitles r]
      /\ historyIndex st' = Z.of_nat (List.length (history st')) - 1
      /\ processingStatus st' = READY).
Proof.
  split; [reflexivity|]. split.
  - intros m H. unfold Gemini.handleGenerate. rewrite H. repeat split.
  - intros r H. unfold Gemini.handleGenerate. rewrite H. cbv zeta.
    unfold addToHistory. destruct (currentUser _); repeat split.
Qed.

(* --------------------------------------------------------------------- *)
(** ** Translation entries: the last one for an id counts *)
(* --------------------------------------------------------------------- *)

Lemma translationMap_last (before after : list Translation) (t : Translation) :
  (forall t', In t' after -> Translate.id t' <> Translate.id t) ->
  translationMap (before ++ t :: after) !! Translate.id t = Some (translatedText t).
Proof.
  intros H. unfold translationMap. rewrite fold_left_app. cbn [fold_left].
  rewrite translationMap_lookup_other by exact H.
  apply lookup_insert_eq.
Qed.

(** X20. When the response holds several entries for a cue's id, the last
    one is applied; an entry whose translated text is empty leaves the
    cue's text as it is. *)
Theorem translation_last_entry_wins (before after : list Translation)
    (t : Translation) (subs : list Subtitle) (i : nat) (c : Subtitle) :
  (forall t', In t' after -> Translate.id t' <> Translate.id t) ->
  nth_error subs i = Some c -> Cues.id c = Translate.id t ->
  exists c',
    nth_error (applyTranslations (before ++ t :: after) subs) i = Some c'
    /\ (translatedText t <> EmptyString -> text c' = translatedText t)
    /\ (translatedText t = EmptyString -> text c' = text c).
Proof.
  intros Hlast Hc Hid. unfold applyTranslations. rewrite nth_error_map, Hc. cbn.
  eexists. split; [reflexivity|]. cbn. rewrite Hid, translationMap_last by exact Hlast.
  unfold or_else, truthy. destruct (String.eqb_spec (translatedText t) ""); cbn; split;
    intros; congruence.
Qed.

Lemma translation_last_entry_wins_witness :
  exists c',
    nth_error (applyTranslations
                 [mkTranslation "a" "Salut"; mkTranslation "b" "La"; mkTranslation "a" "Bonjour"]
                 cuesA) 0 = Some c'
    /\ text c' = "Bonjour".
Proof.
  destruct (translation_last_entry_wins
              [mkTranslation "a" "Salut"; mkTranslation "b" "La"] []
              (mkTranslation "a" "Bonjour") cuesA 0 (cue "a" 0 2 "Hi"))
    as (c' & H1 & H2 & _); [intros t' []|reflexivity|reflexivity|].
  exists c'. split; [exact H1|]. apply H2. discriminate.
Defined.

(* --------------------------------------------------------------------- *)
(** ** The player's effects *)
(* --------------------------------------------------------------------- *)

(** X21. After the volume effect at most one track is audible. With the dub
    in use the video is muted and the dub takes the shared volume and mute
    flag; otherwise the dub is muted, whatever the volume, and the video
    takes them. Positions and play states are not touched. *)
Theorem one_track_audible (vol : number) (isMuted : bool) (st : Player.State)
    (video audio : Player.MediaElement) :
  Player.videoRef st = Some video -> Player.audioRef st = Some audio ->
  exists video' audio',
    Player.videoRef (Effects.syncVolume vol isMuted st) = Some video'
    /\ Player.audioRef (Effects.syncVolume vol isMuted st) = Some audio'
    /\ (Player.muted video' = true \/ Player.muted audio' = true)
    /\ (Player.useDub st = true ->
        Player.muted video' = true /\ Player.muted audio' = isMuted
        /\ Player.volume audio' = vol /\ Player.volume video' = Player.volume video)
    /\ (Player.useDub st = false ->
        Player.muted audio' = true /\ Player.muted video' = isMuted
        /\ Player.volume video' = vol /\ Player.volume audio' = Player.volume audio)
    /\ Player.currentTime video' = Player.currentTime video
    /\ Player.currentTime audio' = Player.currentTime audio
    /\ Player.paused video' = Player.paused video
    /\ Player.paused audio' = Player.paused audio.
Proof.
  intros Hv Ha. unfold Effects.syncVolume. rewrite Hv, Ha.
  destruct (Player.useDub st); eexists; eexists;
    (split; [reflexivity|]); (split; [reflexivity|]); cbn;
    repeat split; auto; discriminate.
Qed.

Lemma one_track_audible_witness :
  exists video' audio',
    Player.videoRef (Effects.syncVolume 0.5%float false drifting) = Some video'
    /\ Player.audioRef (Effects.syncVolume 0.5%float false drifting) = Some audio'
    /\ Player.muted video' = true /\ Player.muted audio' = false.
Proof.
  destruct (one_track_audible 0.5%float false drifting
              (Player.mkMedia 10 false true 1) (Player.mkMedia 10.5 false false 1)
              eq_refl eq_refl)
    as (v & a & Hv & Ha & _ & Hdub & _).
  exists v, a. destruct (Hdub eq_refl) as (H1 & H2 & _).
  repeat split; assumption.
Defined.


(** X23. An external time change moves both tracks or none. Outside a
    seek, when the parent's time is more than 0.2 s away from the video's
    position, the video and the dub (when there is one) are both put at the
    parent's time; when it is not, nothing changes. *)
Theorem external_jump_moves_both (time : number) (st : Player.State)
    (video : Player.MediaElement) :
  Player.videoRef st = Some video -> Player.isSeekingRef st = false ->
  (gt (Math_abs (Player.currentTime video - time)%float) 0.2%float = true ->
   Player.videoRef (Effects.syncExternalTime time st) = Some (Player.seekTo time video)
   /\ (forall audio, Player.audioRef st = Some audio ->
       Player.audioRef (Effects.syncExternalTime time st) = Some (Player.seekTo time audio))
   /\ (Player.audioRef st = None ->
       Player.audioRef (Effects.syncExternalTime time st) = None))
  /\ (gt (Math_abs (Player.currentTime video - time)%float) 0.2%float = false ->
      Effects.syncExternalTime time st = st).
Proof.
  intros Hv Hs. unfold Effects.syncExternalTime. rewrite Hv, Hs. split; intros ->.
  - split; [reflexivity|]. split; [intros audio ->; reflexivity|intros ->; reflexivity].
  - reflexivity.
Qed.

Lemma external_jump_moves_both_witness :
  Player.videoRef (Effects.syncExternalTime 42%float drifting)
  = Some (Player.mkMedia 42 false true 1)
  /\ Player.audioRef (Effects.syncExternalTime 42%float drifting)
     = Some (Player.mkMedia 42 false false 1)
  /\ Effects.syncExternalTime 10.1%float drifting = drifting.
Proof.
  destruct (external_jump_moves_both 42%float drifting (Player.mkMedia 10 false true 1)
              eq_refl eq_refl) as [H1 _].
  destruct (H1 eq_refl) as (Hv & Ha & _).
  destruct (external_jump_moves_both 10.1%float drifting (Player.mkMedia 10 false true 1)
              eq_refl eq_refl) as [_ H2].
  split; [exact Hv|]. split; [exact (Ha _ eq_refl)|exact (H2 eq_refl)].
Defined.



(* --------------------------------------------------------------------- *)
(** ** Accounts *)
(* --------------------------------------------------------------------- *)

Lemma findIndex_None {A} (q : A -> bool) (l : list A) :
  Backend.findIndex q l = None <-> forall x, In x l -> q x = false.
Proof.
  induction l as [|y l IH]; cbn.
  - split; [intros _ x []|reflexivity].
  - destruct (q y) eqn:E.
    + split; [discriminate|]. intros H. rewrite (H y) in E by (left; reflexivity).
      discriminate E.
    + destruct (Backend.findIndex q l) as [i|].
      * split; [discriminate|]. intros H. exfalso.
        assert (F : Some i = None) by (apply IH; intros z Hz; apply H; right; exact Hz).
        discriminate F.
      * split; [|reflexivity]. intros _ z [<-|Hz]; [exact E|].
        apply (proj1 IH eq_refl z Hz).
Qed.

Lemma findIndex_app_first {A} (q : A -> bool) (l r : list A) (y : A) :
  (forall x, In x l -> q x = false) -> q y = true ->
  Backend.findIndex q (l ++ y :: r) = Some (List.length l).
Proof.
  intros Hl Hy. induction l as [|x l IH]; cbn.
  - rewrite Hy. reflexivity.
  - rewrite (Hl x) by (left; reflexivity).
    rewrite IH by (intros z Hz; apply Hl; right; exact Hz). reflexivity.
Qed.

Lemma findAt_app_first {A} (q : A -> bool) (l r : list A) (y : A) :
  (forall x, In x l -> q x = false) -> q y = true ->
  Backend.findAt q (l ++ y :: r) = Some (List.length l, y).
Proof.
  intros Hl Hy. induction l as [|x l IH]; cbn.
  - rewrite Hy. reflexivity.
  - rewrite (Hl x) by (left; reflexivity).
    rewrite IH by (intros z Hz; apply Hl; right; exact Hz). reflexivity.
Qed.

Lemma insert_app_first {A} (l r : list A) (y z : A) :
  <[List.length l := z]> (l ++ y :: r) = l ++ z :: r.
Proof. induction l as [|x l IH]; cbn; [reflexivity|]. f_equal. exact IH. Qed.

(** The first element that satisfies [q], once replaced by another one
    that satisfies [q], is what [find] returns. *)
Lemma find_insert_findIndex {A} (q : A -> bool) (l : list A) (i : nat) (z : A) :
  Backend.findIndex q l = Some i -> q z = true ->
  find q (<[i := z]> l) = Some z
  /\ Backend.findIndex q (<[i := z]> l) = Some i.
Proof.
  revert i. induction l as [|x l IH]; intros i Hi Hz; [discriminate Hi|].
  cbn in Hi. destruct (q x) eqn:E.
  - injection Hi as <-. cbn. rewrite Hz. split; reflexivity.
  - destruct (Backend.findIndex q l) as [j|] eqn:Ej; [|discriminate Hi].
    injection Hi as <-.
    change (<[S j := z]> (x :: l)) with (x :: <[j := z]> l).
    cbn [find Backend.findIndex]. rewrite E.
    destruct (IH j eq_refl Hz) as [H1 H2]. rewrite H1, H2. split; reflexivity.
Qed.

Lemma find_insert_other {A} (q : A -> bool) (l : list A) (i : nat) (x z : A) :
  nth_error l i = Some x -> q x = false -> q z = false ->
  find q (<[i := z]> l) = find q l.
Proof.
  revert i. induction l as [|y l IH]; intros i Hi Hx Hz; [destruct i; discriminate Hi|].
  destruct i as [|i]; cbn in Hi |- *.
  - injection Hi as ->. rewrite Hx, Hz. reflexivity.
  - destruct (q y); [reflexivity|]. apply (IH i Hi Hx Hz).
Qed.

Lemma findIndex_nth {A} (q : A -> bool) (l : list A) (i : nat) :
  Backend.findIndex q l = Some i -> exists x, nth_error l i = Some x /\ q x = true.
Proof.
  revert i. induction l as [|y l IH]; intros i Hi; [discriminate Hi|].
  cbn in Hi. destruct (q y) eqn:E.
  - injection Hi as <-. exists y. split; [reflexivity|exact E].
  - destruct (Backend.findIndex q l) as [j|]; [|discriminate Hi].
    injection Hi as <-. apply (IH j eq_refl).
Qed.

Lemma findIndex_exists {A} (q : A -> bool) (l : list A) (x : A) :
  In x l -> q x = true -> exists i, Backend.findIndex q l = Some i.
Proof.
  intros Hin Hq. destruct (Backend.findIndex q l) as [i|] eqn:E; [exists i; reflexivity|].
  rewrite (proj1 (findIndex_None q l) E x Hin) in Hq. discriminate Hq.
Qed.

Lemma emailTaken_spec e us :
  Accounts.emailTaken e us = true
  <-> exists u, In u us /\ toLowerCase (Backend.email u) = toLowerCase e.
Proof.
  unfold Accounts.emailTaken. rewrite existsb_exists.
  split; intros (u & Hu & H); exists u; (split; [exact Hu|]);
    [apply String.eqb_eq|apply String.eqb_eq]; exact H.
Qed.

(** X25. [signup] refuses an e-mail address that a stored account already
    has, letter case aside, and then leaves the storage as it is; otherwise
    it appends the new account with role [user], keeps every stored account
    as it was, makes the new account the active one, and keeps e-mail
    addresses pairwise distinct. *)
Theorem signup_keeps_emails_unique (e pw n newId : string) (tc tl t2 t3 : Z)
    (db : Backend.Storage) :
  Accounts.emailsUnique (Backend.users db) ->
  let r := Accounts.signup e pw n newId tc tl t2 t3 db in
  Accounts.emailsUnique (Backend.users (snd r))
  /\ ((exists u, In u (Backend.users db)
                 /\ toLowerCase (Backend.email u) = toLowerCase e)
      -> r = (Backend.Threw Accounts.emailInUse, db))
  /\ ((forall u, In u (Backend.users db)
                 -> toLowerCase (Backend.email u) <> toLowerCase e)
      -> fst r = Backend.Resolved (Backend.mkUser newId e n Backend.user tc tl false)
         /\ Backend.users (snd r)
            = Backend.users db ++ [Backend.mkUser newId e n Backend.user tc tl false]
         /\ Backend.active_uid (snd r) = Some newId).
Proof.
  intros Hu r. subst r. unfold Accounts.signup.
  destruct (Accounts.emailTaken e (Backend.users db)) eqn:E.
  - split; [exact Hu|]. split; [reflexivity|].
    intros Hno. apply emailTaken_spec in E. destruct E as (u & Hin & Heq).
    exfalso. exact (Hno u Hin Heq).
  - assert (Hfree : forall u, In u (Backend.users db)
                      -> toLowerCase (Backend.email u) <> toLowerCase e).
    { intros u Hin Heq.
      assert (T : Accounts.emailTaken e (Backend.users db) = true)
        by (apply emailTaken_spec; exists u; split; assumption).
      rewrite T in E. discriminate E. }
    split; [|split].
    + cbn. unfold Accounts.emailsUnique in *. rewrite map_app. cbn.
      apply NoDup_app_remove_l with (l := []). cbn.
      apply Permutation_NoDup with (l := toLowerCase e :: map (fun u => toLowerCase (Backend.email u)) (Backend.users db)).
      * apply Permutation_cons_append.
      * apply List.NoDup_cons; [|exact Hu].
        rewrite in_map_iff. intros (u & Heq & Hin). exact (Hfree u Hin Heq).
    + intros (u & Hin & Heq). exfalso. exact (Hfree u Hin Heq).
    + intros _. repeat split.
Qed.

Lemma signup_keeps_emails_unique_witness :
  Accounts.signup "AMINA@work.io" "pw" "Other" "u_9" 1 2 3 4 db1
  = (Backend.Threw Accounts.emailInUse, db1)
  /\ Accounts.emailsUnique
       (Backend.users (snd (Accounts.signup "bea@work.io" "pw" "Bea" "u_9" 1 2 3 4 db1))).
Proof.
  assert (Hu : Accounts.emailsUnique (Backend.users db1)).
  { apply List.NoDup_cons; [intros []|apply List.NoDup_nil]. }
  split.
  - apply (proj1 (proj2 (signup_keeps_emails_unique "AMINA@work.io" "pw" "Other" "u_9"
                           1 2 3 4 db1 Hu))).
    exists amina. split; [left; reflexivity|reflexivity].
  - exact (proj1 (signup_keeps_emails_unique "bea@work.io" "pw" "Bea" "u_9" 1 2 3 4 db1 Hu)).
Defined.

Lemma insert_In {A} (l : list A) (p : nat) (x z : A) :
  nth_error l p = Some x -> In z (<[p := z]> l).
Proof.
  revert p. induction l as [|y l IH]; intros p Hp; [destruct p; discriminate Hp|].
  destruct p as [|p].
  - left. reflexivity.
  - change (<[S p := z]> (y :: l)) with (y :: <[p := z]> l).
    right. apply (IH p Hp).
Qed.

Lemma emailTaken_free e us :
  (forall u, In u us -> toLowerCase (Backend.email u) <> toLowerCase e) ->
  Accounts.emailTaken e us = false.
Proof.
  intros H. destruct (Accounts.emailTaken e us) eqn:E; [|reflexivity].
  apply emailTaken_spec in E. destruct E as (u & Hin & Heq).
  exfalso. exact (H u Hin Heq).
Qed.

(** X26. An account that [signup] has just created is the one a later
    [login] with its e-mail address resolves to, whatever password is
    given, with only the login time changed: provided no older account has
    that address (letter case aside) or has it as its name, and the pair is
    not the administrator's. *)
Theorem signup_then_login (e pw pw' n newId : string) (tc tl t2 t3 t1' t2' t3' : Z)
    (db : Backend.Storage) :
  (forall u, In u (Backend.users db)
             -> toLowerCase (Backend.email u) <> toLowerCase e
                /\ Backend.name u <> e) ->
  Backend.isAdminPair e pw' = false ->
  let r := Backend.login e pw' t1' t2' t3'
             (snd (Accounts.signup e pw n newId tc tl t2 t3 db)) in
  fst r = Backend.Resolved (Backend.mkUser newId e n Backend.user tc t1' false)
  /\ Backend.active_uid (snd r) = Some newId.
Proof.
  intros Hold Hpair r. subst r. unfold Accounts.signup.
  rewrite emailTaken_free by (intros u Hu; apply (Hold u Hu)).
  cbn [snd]. unfold Backend.login. rewrite Hpair.
  cbn [Backend.users Backend.setActive Backend.startSession Backend.saveUsers].
  rewrite (findAt_app_first (Backend.matches e) (Backend.users db) []).
  - split; reflexivity.
  - intros u Hu. destruct (Hold u Hu) as [H1 H2]. unfold Backend.matches.
    apply orb_false_iff. split; apply String.eqb_neq; assumption.
  - unfold Backend.matches. cbn [Backend.email]. rewrite String.eqb_refl. reflexivity.
Qed.

Lemma signup_then_login_witness :
  fst (Backend.login "bea@work.io" "other" 7 8 9
         (snd (Accounts.signup "bea@work.io" "pw" "Bea" "u_9" 1 2 3 4 db1)))
  = Backend.Resolved (Backend.mkUser "u_9" "bea@work.io" "Bea" Backend.user 1 7 false).
Proof.
  refine (proj1 (signup_then_login "bea@work.io" "pw" "other" "Bea" "u_9"
                   1 2 3 4 7 8 9 db1 _ _)).
  - intros u [<-|[]]. split; discriminate.
  - reflexivity.
Defined.

(** X27. After [login] has resolved to an account, [getCurrentUser] answers
    with that account as the storage now holds it, login time included;
    with the static administrator account when the account's id is the
    administrator's; and with nothing when the id is empty. *)
Theorem login_sets_current_user (identifier pw : string) (t1 t2 t3 t : Z)
    (db : Backend.Storage) (u : Backend.User) :
  fst (Backend.login identifier pw t1 t2 t3 db) = Backend.Resolved u ->
  Accounts.getCurrentUser t (snd (Backend.login identifier pw t1 t2 t3 db))
  = if String.eqb (Backend.id u) "admin_static_root" then Some (Backend.adminUser t)
    else if truthy (Backend.id u) then Some u
    else None.
Proof.
  unfold Backend.login. destruct (Backend.isAdminPair identifier pw).
  - cbn [fst snd]. intros [= <-]. reflexivity.
  - destruct (Backend.findAt (Backend.matches identifier) (Backend.users db))
      as [[p found]|] eqn:F; [|discriminate].
    cbn [fst snd]. intros [= <-].
    apply findAt_Some in F. destruct F as [Hp _].
    set (v := Backend.touch t1 found).
    set (q := fun x : Backend.User => String.eqb (Backend.id x) (Backend.id v)).
    assert (Hq : q v = true) by apply String.eqb_refl.
    destruct (findIndex_exists q (<[p := v]> (Backend.users db)) v
                (insert_In _ p found v Hp) Hq) as [i Hi].
    rewrite Hi. unfold Accounts.getCurrentUser.
    cbn [Backend.active_uid Backend.setActive Backend.users Backend.startSession
         Backend.saveUsers].
    destruct (String.eqb (Backend.id v) "admin_static_root"); [reflexivity|].
    destruct (truthy (Backend.id v)); [|reflexivity].
    apply (proj1 (find_insert_findIndex q _ i v Hi Hq)).
Qed.

Lemma login_sets_current_user_witness :
  Accounts.getCurrentUser 9 (snd (Backend.login "Amina" "x" 1 2 3 db1))
  = Some (Backend.touch 1 amina).
Proof.
  apply (login_sets_current_user "Amina" "x" 1 2 3 9 db1 (Backend.touch 1 amina)).
  vm_compute. reflexivity.
Defined.

(* --------------------------------------------------------------------- *)
(** ** Sessions *)
(* --------------------------------------------------------------------- *)

Lemma find_app_first {A} (q : A -> bool) (l r : list A) (y : A) :
  (forall x, In x l -> q x = false) -> q y = true ->
  find q (l ++ y :: r) = Some y.
Proof.
  intros Hl Hy. induction l as [|x l IH]; cbn.
  - rewrite Hy. reflexivity.
  - rewrite (Hl x) by (left; reflexivity).
    apply IH. intros z Hz. apply Hl. right. exact Hz.
Qed.

Lemma find_app_none {A} (q : A -> bool) (l r : list A) :
  (forall x, In x r -> q x = false) -> find q (l ++ r) = find q l.
Proof.
  intros Hr. induction l as [|x l IH]; cbn.
  - destruct (find q r) as [y|] eqn:E; [|reflexivity].
    apply find_some in E. destruct E as [Hin Hq].
    rewrite (Hr y Hin) in Hq. discriminate Hq.
  - destruct (q x); [reflexivity|exact IH].
Qed.

(** X28. [logout] closes the newest open session of the active user: that
    entry gets the end time and the duration in seconds, every other entry
    stays as it is, and no user is active afterwards. The hypothesis on the
    ids is needed: the closed entry is written back at the first entry that
    has its id. *)
Theorem logout_closes_newest_session (t : Z) (l1 l2 : list Sessions.Session)
    (s : Sessions.Session) :
  Sessions.userId s <> "" ->
  Sessions.isOpen s = true ->
  (forall x, In x l2 -> Sessions.userId x = Sessions.userId s
             -> Sessions.isOpen x = false) ->
  (forall x, In x l1 -> Sessions.id x <> Sessions.id s) ->
  Sessions.logout t (Sessions.mkStore (l1 ++ s :: l2) (Some (Sessions.userId s)))
  = Sessions.mkStore
      (l1 ++ Sessions.mkSession (Sessions.id s) (Sessions.userId s)
               (Sessions.userEmail s) (Sessions.startTime s) (Some t)
               (Some ((of_Z t - of_Z (Sessions.startTime s)) / 1000)%float)
          :: l2)
      None.
Proof.
  intros Hid Hopen Hnewer Hids. unfold Sessions.logout.
  cbn [Sessions.active_uid Sessions.sessions].
  assert (T : truthy (Sessions.userId s) = true).
  { unfold truthy. apply negb_true_iff, String.eqb_neq. exact Hid. }
  rewrite T. f_equal. unfold Sessions.endSession.
  rewrite rev_app_distr. cbn [rev]. rewrite <- app_assoc. cbn [List.app].
  rewrite find_app_first.
  - cbn [Sessions.closed Sessions.id].
    rewrite (findIndex_app_first
               (fun x => String.eqb (Sessions.id x) (Sessions.id s)) l1 l2 s).
    + apply insert_app_first.
    + intros x Hx. apply String.eqb_neq. apply (Hids x Hx).
    + apply String.eqb_refl.
  - intros x Hx. apply in_rev in Hx.
    destruct (String.eqb_spec (Sessions.userId x) (Sessions.userId s)) as [E|E];
      [|reflexivity].
    cbn [andb]. apply (Hnewer x Hx E).
  - rewrite String.eqb_refl, Hopen. reflexivity.
Qed.

Lemma logout_closes_newest_session_witness :
  Sessions.logout 9000
    (Sessions.mkStore (Sessions.startSession "u_1" "a@b.c" 4000 4000 [])
       (Some "u_1"))
  = Sessions.mkStore
      [Sessions.mkSession "s_4000" "u_1" "a@b.c" 4000 (Some 9000) (Some 5%float)]
      None.
Proof.
  refine (eq_trans
            (logout_closes_newest_session 9000 [] []
               (Sessions.opened "u_1" "a@b.c" 4000 4000) _ _ _ _) _).
  - discriminate.
  - reflexivity.
  - intros x [].
  - intros x [].
  - vm_compute. reflexivity.
Defined.

(** X29. When two entries share an id (two sessions started in the same
    millisecond), [logout] writes the closed session over the older of the
    two and leaves the session it meant to close open. *)
Theorem logout_id_clash_overwrites_older (t : Z) (a b l2 : list Sessions.Session)
    (x s : Sessions.Session) :
  Sessions.userId s <> "" ->
  Sessions.isOpen s = true ->
  (forall y, In y l2 -> Sessions.userId y = Sessions.userId s
             -> Sessions.isOpen y = false) ->
  Sessions.id x = Sessions.id s ->
  (forall y, In y a -> Sessions.id y <> Sessions.id s) ->
  Sessions.logout t
    (Sessions.mkStore (a ++ x :: b ++ s :: l2) (Some (Sessions.userId s)))
  = Sessions.mkStore (a ++ Sessions.closed t s :: b ++ s :: l2) None.
Proof.
  intros Hid Hopen Hnewer Hx Hids. unfold Sessions.logout.
  cbn [Sessions.active_uid Sessions.sessions].
  assert (T : truthy (Sessions.userId s) = true).
  { unfold truthy. apply negb_true_iff, String.eqb_neq. exact Hid. }
  rewrite T. f_equal. unfold Sessions.endSession.
  replace (a ++ x :: b ++ s :: l2) with ((a ++ x :: b) ++ s :: l2)
    by (rewrite <- app_assoc; reflexivity).
  rewrite rev_app_distr. cbn [rev]. rewrite <- app_assoc. cbn [List.app].
  rewrite find_app_first.
  - rewrite <- (app_assoc a (x :: b) (s :: l2)). cbn [List.app].
    change (Sessions.id (Sessions.closed t s)) with (Sessions.id s).
    rewrite (findIndex_app_first
               (fun y => String.eqb (Sessions.id y) (Sessions.id s)) a
               (b ++ s :: l2) x).
    + apply insert_app_first.
    + intros y Hy. apply String.eqb_neq. apply (Hids y Hy).
    + apply String.eqb_eq. exact Hx.
  - intros y Hy. apply in_rev in Hy.
    destruct (String.eqb_spec (Sessions.userId y) (Sessions.userId s)) as [E|E];
      [|reflexivity].
    cbn [andb]. apply (Hnewer y Hy E).
  - rewrite String.eqb_refl, Hopen. reflexivity.
Qed.

Lemma logout_id_clash_overwrites_older_witness :
  Sessions.logout 9000
    (Sessions.mkStore
       [Sessions.opened "u_2" "x@y.z" 4000 4000; Sessions.opened "u_1" "a@b.c" 4000 4001]
       (Some "u_1"))
  = Sessions.mkStore
      [Sessions.closed 9000 (Sessions.opened "u_1" "a@b.c" 4000 4001);
       Sessions.opened "u_1" "a@b.c" 4000 4001]
      None.
Proof.
  apply (logout_id_clash_overwrites_older 9000 [] [] []
           (Sessions.opened "u_2" "x@y.z" 4000 4000)
           (Sessions.opened "u_1" "a@b.c" 4000 4001)).
  - discriminate.
  - reflexivity.
  - intros y [].
  - reflexivity.
  - intros y [].
Defined.

Lemma insertByStart_perm s l : Permutation (s :: l) (Sessions.insertByStart s l).
Proof.
  induction l as [|x l IH]; cbn [Sessions.insertByStart]; [reflexivity|].
  destruct (Sessions.startTime x <=? Sessions.startTime s); [reflexivity|].
  etransitivity; [apply perm_swap|]. apply perm_skip. exact IH.
Qed.

Lemma insertByStart_Forall (P : Sessions.Session -> Prop) s l :
  P s -> Forall P l -> Forall P (Sessions.insertByStart s l).
Proof.
  intros Hs Hl. induction Hl as [|x l Hx Hl IH]; cbn [Sessions.insertByStart].
  - constructor; [exact Hs|constructor].
  - destruct (Sessions.startTime x <=? Sessions.startTime s).
    + constructor; [exact Hs|]. constructor; assumption.
    + constructor; assumption.
Qed.

Lemma insertByStart_sorted s l :
  StronglySorted laterFirst l -> StronglySorted laterFirst (Sessions.insertByStart s l).
Proof.
  intros Hl. induction Hl as [|x l Hl IH Hx]; cbn [Sessions.insertByStart].
  - constructor; constructor.
  - destruct (Z.leb_spec (Sessions.startTime x) (Sessions.startTime s)) as [L|L].
    + constructor; [constructor; assumption|].
      constructor; [exact L|].
      eapply List.Forall_impl; [|exact Hx]. unfold laterFirst. intros y Hy. lia.
    + constructor; [exact IH|].
      apply insertByStart_Forall; [unfold laterFirst; lia|exact Hx].
Qed.

(** X30. [getAllSessions] returns the stored sessions, each exactly as often
    as it is stored, ordered from the latest start to the earliest; a list
    that is already in that order comes back unchanged, entries with equal
    start times included. *)
Theorem getAllSessions_latest_first (st : Sessions.Store) :
  Permutation (Sessions.sessions st) (Sessions.getAllSessions st)
  /\ StronglySorted laterFirst (Sessions.getAllSessions st)
  /\ (StronglySorted laterFirst (Sessions.sessions st)
      -> Sessions.getAllSessions st = Sessions.sessions st).
Proof.
  unfold Sessions.getAllSessions. destruct st as [l uid]. cbn [Sessions.sessions].
  split; [|split].
  - induction l as [|s l IH]; cbn [Sessions.sortByStartDesc]; [reflexivity|].
    etransitivity; [apply perm_skip; exact IH|]. apply insertByStart_perm.
  - induction l as [|s l IH]; cbn [Sessions.sortByStartDesc]; [constructor|].
    apply insertByStart_sorted. exact IH.
  - intros H. induction H as [|s l Hl IH Hs]; cbn [Sessions.sortByStartDesc];
      [reflexivity|].
    rewrite IH. destruct l as [|x l]; [reflexivity|].
    cbn [Sessions.insertByStart]. inversion Hs as [|? ? Hx _]; subst.
    unfold laterFirst in Hx.
    destruct (Z.leb_spec (Sessions.startTime x) (Sessions.startTime s)); [reflexivity|lia].
Qed.

(* --------------------------------------------------------------------- *)
(** ** Stored work and the activity log *)
(* --------------------------------------------------------------------- *)

Lemma find_findIndex_None {A} (q : A -> bool) (l : list A) :
  Backend.findIndex q l = None -> find q l = None.
Proof.
  intros H. destruct (find q l) as [y|] eqn:E; [|reflexivity].
  apply find_some in E. destruct E as [Hin Hq].
  rewrite (proj1 (findIndex_None q l) H y Hin) in Hq. discriminate Hq.
Qed.

Lemma find_findIndex_Some {A} (q : A -> bool) (l : list A) (i : nat) :
  Backend.findIndex q l = Some i -> exists x, find q l = Some x.
Proof.
  intros H. destruct (find q l) as [y|] eqn:E; [exists y; reflexivity|].
  destruct (findIndex_nth q l i H) as (x & Hx & Hq).
  rewrite (find_none q l E x (nth_error_In l i Hx)) in Hq. discriminate Hq.
Qed.

Lemma insert_keeps_length {A} (l : list A) (i : nat) (z : A) :
  List.length (<[i := z]> l) = List.length l.
Proof.
  revert i. induction l as [|y l IH]; intros i; [reflexivity|].
  destruct i as [|i]; [reflexivity|].
  change (<[S i := z]> (y :: l)) with (y :: <[i := z]> l).
  cbn [List.length]. f_equal. apply IH.
Qed.

(** X3. What [saveUserWork] stores for a user is what [loadUserWork] then
    returns for that user, with the name [Untitled Project] when no name or
    an empty one was given; the answers for every other user are as
    before; and the user's older entry is replaced rather than kept beside
    the new one. *)
Theorem saved_work_is_loaded {Payload : Type} (uid uid' : string) (subs : Payload)
    (name : option string) (t : Z) (data : list (Projects.UserProjectData Payload)) :
  let data' := Projects.saveUserWork Payload uid subs name t data in
  Projects.loadUserWork Payload uid data'
  = Some (Projects.mkData Payload uid subs t (or_else name "Untitled Project"))
  /\ (uid' <> uid
      -> Projects.loadUserWork Payload uid' data' = Projects.loadUserWork Payload uid' data)
  /\ List.length data'
     = match Projects.loadUserWork Payload uid data with
       | Some _ => List.length data
       | None => S (List.length data)
       end.
Proof.
  intros data'. subst data'. unfold Projects.saveUserWork, Projects.loadUserWork.
  set (z := Projects.mkData Payload uid subs t (or_else name "Untitled Project")).
  set (q := fun d => String.eqb (Projects.userId Payload d) uid).
  set (q' := fun d => String.eqb (Projects.userId Payload d) uid').
  assert (Hz : q z = true) by apply String.eqb_refl.
  destruct (Backend.findIndex q data) as [i|] eqn:E.
  - split; [|split].
    + apply (proj1 (find_insert_findIndex q data i z E Hz)).
    + intros Hne. destruct (findIndex_nth q data i E) as (x & Hx & Hq).
      apply (find_insert_other q' data i x z Hx).
      * apply String.eqb_neq. apply String.eqb_eq in Hq.
        unfold Projects.userId in *. congruence.
      * apply String.eqb_neq. cbn. congruence.
    + destruct (find_findIndex_Some q data i E) as [x ->]. apply insert_keeps_length.
  - split; [|split].
    + apply (find_app_first q data [] z); [|exact Hz].
      apply findIndex_None. exact E.
    + intros Hne. apply find_app_none. intros x [<-|[]].
      apply String.eqb_neq. cbn. congruence.
    + rewrite (find_findIndex_None q data E). rewrite length_app. cbn. lia.
Qed.

(** X10. With at most 1000 stored activities, [logActivity] leaves the
    newest 1000 of the new entry followed by the stored ones: the new entry
    comes first, the oldest entry is dropped when the log was full, and the
    log never grows beyond 1000 entries. The entry carries the e-mail
    address of the current user, or [Unknown] when there is none. *)
Theorem activity_log_is_capped {Details : Type} (uid newId : string)
    (ty : Projects.ActivityType) (d : Details) (t : Z)
    (current : option Backend.User)
    (activities : list (Projects.ActivityLog Details)) :
  (List.length activities <= 1000)%nat ->
  let entry :=
    Projects.mkActivity Details newId uid
      (match current with
       | Some u => if truthy (Backend.email u) then Backend.email u else "Unknown"
       | None => "Unknown"
       end) t ty d in
  let r := Projects.logActivity Details uid ty d newId t current activities in
  r = firstn 1000 (entry :: activities)
  /\ (List.length r <= 1000)%nat
  /\ (List.length r = Nat.min 1000 (S (List.length activities))).
Proof.
  intros Hlen entry r.
  assert (Hr : r = firstn 1000 (entry :: activities)).
  { subst r. unfold Projects.logActivity.
    replace (or_else (option_map Backend.email current) "Unknown")
      with (Projects.act_userEmail Details entry) by (destruct current; reflexivity).
    change (Projects.mkActivity Details newId uid (Projects.act_userEmail Details entry) t ty d)
      with entry.
    destruct (Z.ltb_spec 1000 (Z.of_nat (List.length (entry :: activities)))) as [L|L].
    - rewrite removelast_firstn_len. f_equal.
      cbn [List.length] in L |- *. lia.
    - symmetry. apply firstn_all2. cbn [List.length] in L |- *. lia. }
  split; [exact Hr|]. rewrite Hr. rewrite length_firstn. cbn [List.length].
  split; lia.
Qed.

Lemma activity_log_is_capped_witness :
  Projects.logActivity unit "u_1" Projects.EXPORT tt "act_1" 77 None []
  = [Projects.mkActivity unit "act_1" "u_1" "Unknown" 77 Projects.EXPORT tt].
Proof.
  refine (eq_trans
            (proj1 (activity_log_is_capped "u_1" "act_1" Projects.EXPORT tt 77 None [] _))
            _).
  - cbn [List.length]. lia.
  - reflexivity.
Defined.
